(** * assets-retry: the synchronous retry state machine ([src/retry-sync.ts])

    A shallow embedding of [initSync]: the capture-phase [errorHandler] and
    [loadHandler] and the start-up scan [processExistingElements], together
    with the process-wide state they share (the collector store and
    [retryCache]).  The handlers are written in a small state / trace /
    exception monad: the state is what the handlers mutate, the trace lists
    the calls they make to the caller's callbacks and to the reload helpers,
    and an exception is the [throw] of line 94. *)

From stdpp Require Import gmap strings list fin_maps.
From Stdlib Require Import ZArith Lia.

Open Scope string_scope.
Open Scope nat_scope.

(** ** JavaScript values and truthiness *)

(** What the caller's [onRetry] hook may hand back (line 87): the code only
    distinguishes [null], strings and everything else. *)
Inductive JsValue : Type :=
| JNull
| JUndefined
| JString (s : string)
| JNumber (n : Z)
| JBool (b : bool)
| JObject.

(** [!s] is true exactly for the empty string. *)
Definition truthy (s : string) : bool :=
  match s with
  | EmptyString => false
  | String _ _ => true
  end.

(** Truthiness of a value that is a string, [null] or [undefined]. *)
Definition truthy_opt (o : option string) : bool :=
  match o with
  | Some s => truthy s
  | None => false
  end.

(** ** The hosting document *)

Inductive NodeKind : Type :=
| ScriptElement      (* instanceof ScriptElementCtor *)
| LinkElement        (* instanceof LinkElementCtor *)
| ImageElement       (* instanceof ImageElementCtor *)
| OtherHTMLElement   (* any other HTMLElement *)
| NonHTMLTarget.     (* window, document, text nodes, ... *)

(** An event target as the handlers observe it: content attributes
    ([getAttribute] / [hasAttribute]) and the reflected properties they read. *)
Record Element : Type := {
  nodeKind : NodeKind;
  attributes : gmap string string;
  src : string;
  href : string;
  complete : bool;
  naturalWidth : nat;
  naturalHeight : nat
}.

Record Event : Type := {
  target : option Element;
  srcElement : option Element
}.

(** [event.target || event.srcElement] *)
Definition eventTarget (ev : Event) : option Element :=
  match target ev with
  | Some el => Some el
  | None => srcElement ev
  end.

(** An entry of [doc.styleSheets]; [sheetRules = None] is a rule list that
    cannot be read. *)
Record StyleSheet : Type := {
  sheetHref : option string;
  sheetRules : option (list string)
}.

(** [doc]: [styleSheets] is [None] where the API is missing (line 155). *)
Record Document : Type := {
  styleSheets : option (list StyleSheet);
  nodes : list Element
}.

Definition isScript (el : Element) : bool :=
  match nodeKind el with ScriptElement => true | _ => false end.
Definition isLink (el : Element) : bool :=
  match nodeKind el with LinkElement => true | _ => false end.
Definition isImage (el : Element) : bool :=
  match nodeKind el with ImageElement => true | _ => false end.
Definition isHTMLElement (el : Element) : bool :=
  match nodeKind el with NonHTMLTarget => false | _ => true end.

Definition getAttribute (el : Element) (name : string) : option string :=
  attributes el !! name.
Definition hasAttribute (el : Element) (name : string) : bool :=
  match attributes el !! name with Some _ => true | None => false end.

(** [target.getAttribute('rel') !== 'stylesheet'] *)
Definition relIsNotStylesheet (el : Element) : bool :=
  match getAttribute el "rel" with
  | Some r => negb (String.eqb r "stylesheet")
  | None => true
  end.

(** ** Collectors *)

Record Collector : Type := {
  retryTimes : nat;
  failed : list string;
  succeeded : list string
}.

Definition emptyCollector : Collector :=
  {| retryTimes := 0; failed := []; succeeded := [] |}.

Definition incrRetryTimes (c : Collector) : Collector :=
  {| retryTimes := S (retryTimes c); failed := failed c; succeeded := succeeded c |}.
Definition pushFailed (url : string) (c : Collector) : Collector :=
  {| retryTimes := retryTimes c; failed := failed c ++ [url]; succeeded := succeeded c |}.
Definition pushSucceeded (url : string) (c : Collector) : Collector :=
  {| retryTimes := retryTimes c; failed := failed c; succeeded := succeeded c ++ [url] |}.

(** Modelled from the spec: the collector store of [./url], where a record
    is created on first reference and never removed (section 3). *)
Definition ensureCollector (key : string) (store : gmap string Collector)
  : gmap string Collector :=
  match store !! key with
  | Some _ => store
  | None => <[key := emptyCollector]> store
  end.

(** ** Session state, observable calls, and the handler monad *)

(** The two module-level mutable objects: the collector store (owned by the
    absent [./url] / [./collector] modules) and [retryCache] (line 31). *)
Record Session : Type := {
  collectors : gmap string Collector;
  retryCache : gmap string bool
}.

(** Calls that leave the handlers: the caller's callbacks and the reload
    actions.  [OnRetry] carries the collector as it is when the hook is called. *)
Inductive Call : Type :=
| OnFail (srcPath : string)
| OnSuccess (srcPath : string)
| OnRetry (newUrl originalUrl : string) (collector : Collector)
| ReloadImage (el : Element) (url : string)      (* lines 97-98 *)
| LoadNextScript (el : Element) (url : string)   (* line 112 *)
| LoadNextLink (el : Element) (url : string).    (* line 120 *)

Inductive Completion (A : Type) : Type :=
| Normal (a : A)
| Thrown (msg : string).
Arguments Normal {A} a.
Arguments Thrown {A} msg.

Record Run (A : Type) : Type := {
  after : Session;
  calls : list Call;
  completion : Completion A
}.
Arguments after {A} r.
Arguments calls {A} r.
Arguments completion {A} r.

Definition Js (A : Type) : Type := Session → Run A.

Definition js_ret {A} (a : A) : Js A :=
  λ s, {| after := s; calls := []; completion := Normal a |}.

(** Sequencing: an exception skips the continuation and keeps every state
    change and call made before it. *)
Definition js_bind {A B} (m : Js A) (k : A → Js B) : Js B :=
  λ s,
    let r := m s in
    match completion r with
    | Thrown msg => {| after := after r; calls := calls r; completion := Thrown msg |}
    | Normal a =>
        let r' := k a (after r) in
        {| after := after r'; calls := calls r ++ calls r'; completion := completion r' |}
    end.

Notation "x <- m ;; k" := (js_bind m (λ x, k))
  (at level 100, m at next level, right associativity, only parsing).
Notation "m ;;; k" := (js_bind m (λ _, k))
  (at level 100, right associativity, only parsing).

Definition emit (c : Call) : Js unit :=
  λ s, {| after := s; calls := [c]; completion := Normal tt |}.

Definition throw {A} (msg : string) : Js A :=
  λ s, {| after := s; calls := []; completion := Thrown msg |}.

(** The run [r] with the calls [cs] made before it. *)
Definition preceded {A} (cs : list Call) (r : Run A) : Run A :=
  {| after := after r; calls := cs ++ calls r; completion := completion r |}.

Definition modifyCollector (ref : string) (f : Collector → Collector) : Js unit :=
  λ s, {| after := {| collectors := alter f ref (collectors s); retryCache := retryCache s |};
          calls := []; completion := Normal tt |}.

Definition readCollector (ref : string) : Js Collector :=
  λ s, {| after := s; calls := [];
          completion := Normal (default emptyCollector (collectors s !! ref)) |}.

(** [retryCache[elementId]] as a condition. *)
Definition cacheHit (elementId : string) : Js bool :=
  λ s, {| after := s; calls := [];
          completion := Normal (default false (retryCache s !! elementId)) |}.

(** [retryCache[elementId] = true] *)
Definition cacheMark (elementId : string) : Js unit :=
  λ s, {| after := {| collectors := collectors s;
                      retryCache := <[elementId := true]> (retryCache s) |};
          calls := []; completion := Normal tt |}.

(** [xs.forEach(f)]: an exception thrown by [f] ends the iteration. *)
Fixpoint forEach {A} (f : A → Js unit) (xs : list A) : Js unit :=
  match xs with
  | [] => js_ret tt
  | x :: rest => f x ;;; forEach f rest
  end.

(** ** Collaborators that are imported but not part of [retry-sync.ts] *)

(** The URL grammar and the element hash are consumed by contract only; the
    attribute names come from [./constants]. *)
Record Collaborators : Type := {
  (** [splitUrl(url, domainMap)]: the logical path and the domain of [url]. *)
  splitUrl : string → gmap string string → string * string;
  (** [hashTarget(element)]: the identifier [retryCache] is keyed by. *)
  hashTarget : Element → string;
  ignoreIdentifier : string;
  hookedIdentifier : string
}.

(** The fields of [InnerAssetsRetryOptions] the handlers read.  [onSuccess]
    and [onFail] return nothing: their invocations are the [OnSuccess] and
    [OnFail] entries of the trace. *)
Record InnerAssetsRetryOptions : Type := {
  onRetry : string → string → Collector → JsValue;
  domain : gmap string string;
  maxRetryCount : Z
}.

(** Modelled from the spec: [getTargetUrl] of [./util], the loadable source of
    a script, link or image element and [null] for anything else (section 6;
    the comment of line 61 lists the three element kinds). *)
Definition getTargetUrl (tgt : option Element) : option string :=
  match tgt with
  | None => None
  | Some el =>
      match nodeKind el with
      | ScriptElement | ImageElement => Some (src el)
      | LinkElement => Some (href el)
      | _ => None
      end
  end.

(** Modelled from the spec: [getCssRules] of [./util], the rule list of a
    style sheet, [null] when it cannot be read (section 4.2) and when there is
    no style sheet to read from. *)
Definition getCssRules (sheet : option StyleSheet) : option (list string) :=
  match sheet with
  | Some sh => sheetRules sh
  | None => None
  end.

(** Modelled from the spec: the prefix test behind [stringReplace]; [s]
    without its prefix [pat], when it starts with [pat]. *)
Fixpoint dropPrefix (pat s : string) : option string :=
  match pat with
  | EmptyString => Some s
  | String a pat' =>
      match s with
      | EmptyString => None
      | String b s' => if Ascii.eqb a b then dropPrefix pat' s' else None
      end
  end.

(** Modelled from the spec: the search behind [stringReplace]; [s] split at
    the first occurrence of [pat], into the text before it and the text behind
    it. *)
Fixpoint cutAtFirst (pat s : string) : option (string * string) :=
  match dropPrefix pat s with
  | Some behind => Some ("", behind)
  | None =>
      match s with
      | EmptyString => None
      | String c rest =>
          match cutAtFirst pat rest with
          | Some (before, behind) => Some (String c before, behind)
          | None => None
          end
      end
  end.

(** Modelled from the spec: [stringReplace] of [./util], the literal
    replacement of the first occurrence of [from] (section 6). *)
Definition stringReplace (s from to : string) : string :=
  match cutAtFirst from s with
  | Some (before, behind) => before ++ to ++ behind
  | None => s
  end.

(** What the hosting document delivers to [initSync]'s listeners. *)
Inductive Notification : Type :=
| LoadFailure (event : option Event)
| LoadSuccess (doc : Document) (event : option Event)
| StartupScan (doc : Document).

Section Handlers.

Context (lib : Collaborators) (opts : InnerAssetsRetryOptions).

(** Modelled from the spec: [extractInfoFromUrl] of [./url], the URL
    classifier over the collector store (sections 2, 3 and 6).  A URL is
    classified when its domain is a key of the Domain Map; its collector is
    the record of that domain, created on first reference.  The collector is
    returned by reference: here the key under which it lives in the store. *)
Definition extractInfoFromUrl (url : string) (dm : gmap string string)
  : Js (option string * option string) :=
  λ s,
    let d := (splitUrl lib url dm).2 in
    match dm !! d with
    | None => {| after := s; calls := []; completion := Normal (None, None) |}
    | Some _ =>
        {| after := {| collectors := ensureCollector d (collectors s);
                       retryCache := retryCache s |};
           calls := [];
           completion := Normal (Some d, Some d) |}
    end.

(** [onRetry(newUrl, originalUrl, currentCollector)] (line 87). *)
Definition callOnRetry (newUrl originalUrl ref : string) : Js JsValue :=
  c <- readCollector ref ;;
  emit (OnRetry newUrl originalUrl c) ;;;
  js_ret (onRetry opts newUrl originalUrl c).

(** Lines 54-123. *)
Definition errorHandler (event : option Event) : Js unit :=
  match event with
  | None => js_ret tt
  | Some ev =>
      match eventTarget ev with
      | None => js_ret tt
      | Some el =>
      match getTargetUrl (Some el) with
      | None => js_ret tt
      | Some originalUrl =>
          if negb (truthy originalUrl) then js_ret tt else
          info <- extractInfoFromUrl originalUrl (domain opts) ;;
          let hasIgnoreIdentifier :=
            isHTMLElement el && hasAttribute el (ignoreIdentifier lib) in
          match info with
          | (Some currentDomain, Some currentCollector) =>
              if negb (truthy currentDomain) || hasIgnoreIdentifier then js_ret tt else
              if isLink el && relIsNotStylesheet el then js_ret tt else
              modifyCollector currentCollector incrRetryTimes ;;;
              modifyCollector currentCollector (pushFailed originalUrl) ;;;
              c <- readCollector currentCollector ;;
              let isFinalRetry := (Z.of_nat (retryTimes c) >? maxRetryCount opts)%Z in
              (if isFinalRetry
               then emit (OnFail (splitUrl lib originalUrl (domain opts)).1)
               else js_ret tt) ;;;
              if negb (truthy_opt (domain opts !! currentDomain)) || isFinalRetry
              then js_ret tt else
              let newDomain := default "" (domain opts !! currentDomain) in
              let newUrl := stringReplace originalUrl currentDomain newDomain in
              userModifiedUrl <- callOnRetry newUrl originalUrl currentCollector ;;
              match userModifiedUrl with
              | JNull => js_ret tt
              | JString userUrl =>
                  if isImage el && truthy (src el)
                  then emit (ReloadImage el userUrl)
                  else
                    let elementId := hashTarget lib el in
                    hit <- cacheHit elementId ;;
                    if hit then js_ret tt else
                    cacheMark elementId ;;;
                    if isScript el
                       && negb (truthy_opt (getAttribute el (hookedIdentifier lib)))
                       && truthy (src el)
                    then emit (LoadNextScript el userUrl)
                    else if isLink el
                            && negb (truthy_opt (getAttribute el (hookedIdentifier lib)))
                            && truthy (href el)
                    then emit (LoadNextLink el userUrl)
                    else js_ret tt
              | _ => throw "a string should be returned in `onRetry` function"
              end
          | _ => js_ret tt
          end
      end
      end
  end.

(** Lines 130-172.  [doc] is the hosting document as it is when the
    notification is delivered. *)
Definition loadHandler (doc : Document) (event : option Event) : Js unit :=
  match event with
  | None => js_ret tt
  | Some ev =>
      match eventTarget ev with
      | None => js_ret tt
      | Some el =>
      match getTargetUrl (Some el) with
      | None => js_ret tt
      | Some originalUrl =>
          if negb (truthy originalUrl) then js_ret tt else
          info <- extractInfoFromUrl originalUrl (domain opts) ;;
          let currentCollector := info.2 in
          let srcPath := (splitUrl lib originalUrl (domain opts)).1 in
          let callOnSuccess :=
            (match currentCollector with
             | Some ref => modifyCollector ref (pushSucceeded originalUrl)
             | None => js_ret tt
             end) ;;;
            emit (OnSuccess srcPath) in
          if negb (isLink el) then callOnSuccess else
          match styleSheets doc with
          | None => js_ret tt
          | Some sheets =>
              let targetStyleSheet :=
                head (List.filter
                        (λ sh, bool_decide (sheetHref sh = Some (href el))) sheets) in
              match getCssRules targetStyleSheet with
              | None => js_ret tt
              | Some rules =>
                  if Nat.eqb (length rules) 0
                  then errorHandler event
                  else callOnSuccess
              end
          end
      end
      end
  end.

(** The synthetic event [{ target: element, srcElement: element }]. *)
Definition syntheticEvent (element : Element) : option Event :=
  Some {| target := Some element; srcElement := Some element |}.

(** Lines 185-194: one script of the scan. *)
Definition scanScript (element : Element) : Js unit :=
  match getTargetUrl (Some element) with
  | None => js_ret tt
  | Some url =>
      if negb (truthy url) then js_ret tt else
      info <- extractInfoFromUrl url (domain opts) ;;
      match info with
      | (Some currentDomain, Some currentCollector) =>
          if negb (truthy currentDomain) then js_ret tt else
          modifyCollector currentCollector (pushSucceeded url)
      | _ => js_ret tt
      end
  end.

(** Lines 197-227: one stylesheet link of the scan. *)
Definition scanLink (doc : Document) (element : Element) : Js unit :=
  match getTargetUrl (Some element) with
  | None => js_ret tt
  | Some url =>
      if negb (truthy url) || relIsNotStylesheet element then js_ret tt else
      info <- extractInfoFromUrl url (domain opts) ;;
      match info with
      | (Some currentDomain, Some currentCollector) =>
          if negb (truthy currentDomain) then js_ret tt else
          if hasAttribute element (ignoreIdentifier lib) then js_ret tt else
          match styleSheets doc with
          | None => js_ret tt
          | Some sheets =>
              match List.find
                      (λ sh, bool_decide (sheetHref sh = Some (href element))) sheets with
              | Some targetStyleSheet =>
                  match getCssRules (Some targetStyleSheet) with
                  | None => errorHandler (syntheticEvent element)
                  | Some rules =>
                      if Nat.eqb (length rules) 0
                      then errorHandler (syntheticEvent element)
                      else modifyCollector currentCollector (pushSucceeded url)
                  end
              | None => errorHandler (syntheticEvent element)
              end
          end
      | _ => js_ret tt
      end
  end.

(** Lines 230-249: one image of the scan. *)
Definition scanImage (element : Element) : Js unit :=
  match getTargetUrl (Some element) with
  | None => js_ret tt
  | Some url =>
      if negb (truthy url) then js_ret tt else
      info <- extractInfoFromUrl url (domain opts) ;;
      match info with
      | (Some currentDomain, Some currentCollector) =>
          if negb (truthy currentDomain) then js_ret tt else
          if hasAttribute element (ignoreIdentifier lib) then js_ret tt else
          if complete element
             && (Nat.eqb (naturalWidth element) 0 || Nat.eqb (naturalHeight element) 0)
          then errorHandler (syntheticEvent element)
          else if complete element
          then modifyCollector currentCollector (pushSucceeded url)
          else js_ret tt
      | _ => js_ret tt
      end
  end.

(** [doc.querySelectorAll('script[src]')] and its two siblings. *)
Definition selectScripts (doc : Document) : list Element :=
  List.filter (λ el, isScript el && hasAttribute el "src") (nodes doc).
Definition selectLinks (doc : Document) : list Element :=
  List.filter
    (λ el, isLink el
           && bool_decide (getAttribute el "rel" = Some "stylesheet")
           && hasAttribute el "href")
    (nodes doc).
Definition selectImages (doc : Document) : list Element :=
  List.filter (λ el, isImage el && hasAttribute el "src") (nodes doc).

(** Lines 179-250. *)
Definition processExistingElements (doc : Document) : Js unit :=
  let scripts := selectScripts doc in
  let links := selectLinks doc in
  let images := selectImages doc in
  forEach scanScript scripts ;;;
  forEach (scanLink doc) links ;;;
  forEach scanImage images.

(** ** Sessions *)

Definition deliver (n : Notification) : Js unit :=
  match n with
  | LoadFailure event => errorHandler event
  | LoadSuccess doc event => loadHandler doc event
  | StartupScan doc => processExistingElements doc
  end.

(** A session delivers notifications one after the other; an exception
    escaping a handler ends that handler only.  The result is the final
    state and every call made, in order. *)
Fixpoint session (ns : list Notification) (s : Session) : Session * list Call :=
  match ns with
  | [] => (s, [])
  | n :: rest =>
      let r := deliver n s in
      let '(s', cs) := session rest (after r) in
      (s', (calls r ++ cs)%list)
  end.

End Handlers.


(** ** Vocabulary of the statements *)

(** The collector of a domain as the handlers see it once
    [extractInfoFromUrl] has been called: a missing record reads as a
    fresh one. *)
Definition collectorOf (s : Session) (d : string) : Collector :=
  default emptyCollector (collectors s !! d).

(** The target of a notification and its URL, when lines 55-63 (and 131-139)
    let the notification through. *)
Definition loadable (event : option Event) : option (Element * string) :=
  match event with
  | None => None
  | Some ev =>
      match eventTarget ev with
      | None => None
      | Some el =>
          match getTargetUrl (Some el) with
          | Some url => if truthy url then Some (el, url) else None
          | None => None
          end
      end
  end.

(** The rule list the success handler reads for a link target (lines
    153-162): the first style sheet whose [href] is the target's. *)
Definition rulesFor (doc : Document) (el : Element) : option (list string) :=
  match styleSheets doc with
  | None => None
  | Some sheets =>
      getCssRules
        (head (List.filter (λ sh, bool_decide (sheetHref sh = Some (href el))) sheets))
  end.

Section Scope.

Context (lib : Collaborators) (opts : InnerAssetsRetryOptions).

(** The domain [splitUrl] finds in a URL. *)
Definition domainOf (url : string) : string :=
  (splitUrl lib url (domain opts)).2.

(** The logical path [splitUrl] finds in a URL. *)
Definition srcPathOf (url : string) : string :=
  (splitUrl lib url (domain opts)).1.

(** The guards of lines 55-72 as one decision: the target, its URL and its
    domain when the failure handler goes on to line 73. *)
Definition classifiedFailure (event : option Event)
  : option (Element * string * string) :=
  match loadable event with
  | None => None
  | Some (el, url) =>
      let d := domainOf url in
      match domain opts !! d with
      | None => None
      | Some _ =>
          if truthy d
             && negb (isHTMLElement el && hasAttribute el (ignoreIdentifier lib))
             && negb (isLink el && relIsNotStylesheet el)
          then Some (el, url, d)
          else None
      end
  end.

(** [isFinalRetry], as it will be computed for the next failure of [d]. *)
Definition finalAt (s : Session) (d : string) : bool :=
  (Z.of_nat (S (retryTimes (collectorOf s d))) >? maxRetryCount opts)%Z.

(** The collector of [d] after lines 73-74. *)
Definition recordedFailure (s : Session) (d url : string) : Collector :=
  pushFailed url (incrRetryTimes (collectorOf s d)).

(** Whether a failure notification is a classified failure of domain [d]. *)
Definition failureOf (d : string) (event : option Event) : bool :=
  match classifiedFailure event with
  | Some (_, _, d') => String.eqb d' d
  | None => false
  end.

(** The out-of-scope notifications, case by case. *)
Inductive OutOfScope : option Event → Prop :=
| oos_no_event : OutOfScope None
| oos_no_target ev :
    eventTarget ev = None → OutOfScope (Some ev)
| oos_no_url ev el :
    eventTarget ev = Some el →
    truthy_opt (getTargetUrl (Some el)) = false →
    OutOfScope (Some ev)
| oos_unclassified ev el url :
    eventTarget ev = Some el →
    getTargetUrl (Some el) = Some url →
    domain opts !! domainOf url = None →
    OutOfScope (Some ev)
| oos_ignored ev el :
    eventTarget ev = Some el →
    hasAttribute el (ignoreIdentifier lib) = true →
    OutOfScope (Some ev)
| oos_wrong_rel ev el :
    eventTarget ev = Some el →
    isLink el = true →
    getAttribute el "rel" ≠ Some "stylesheet" →
    OutOfScope (Some ev).

(** Whether a call is a replace-element reload of an element whose
    [hashTarget] is [h]. *)
Definition replacesElement (h : string) (c : Call) : bool :=
  match c with
  | LoadNextScript el _ | LoadNextLink el _ => String.eqb (hashTarget lib el) h
  | _ => false
  end.

Definition replaceReloads (h : string) (cs : list Call) : nat :=
  length (List.filter (replacesElement h) cs).

(** The element hashing to [h] is in the Retry Ledger. *)
Definition Ledgered (h : string) (s : Session) : Prop :=
  retryCache s !! h = Some true.

(** What a stretch of execution from [s] to [s'] making the calls [cs] keeps
    true, for the ledger entry [h]: retry counts only grow, a ledger entry
    stays, no replace reload is made for a ledgered element, and a replace
    reload leaves its element ledgered. *)
Record Step (h : string) (s : Session) (cs : list Call) (s' : Session) : Prop := {
  step_grows : ∀ d, retryTimes (collectorOf s d) ≤ retryTimes (collectorOf s' d);
  step_ledger_kept : Ledgered h s → Ledgered h s';
  step_ledger_blocks : Ledgered h s → replaceReloads h cs = 0;
  step_at_most_once : replaceReloads h cs ≤ 1;
  step_reload_ledgers : replaceReloads h cs = 1 → Ledgered h s'
}.

Definition Sound {A} (h : string) (m : Js A) : Prop :=
  ∀ s, Step h s (calls (m s)) (after (m s)).

End Scope.

Definition isOnFail (c : Call) : bool :=
  match c with OnFail _ => true | _ => false end.
Definition isOnRetry (c : Call) : bool :=
  match c with OnRetry _ _ _ => true | _ => false end.
Definition isOnSuccess (c : Call) : bool :=
  match c with OnSuccess _ => true | _ => false end.
Definition isReload (c : Call) : bool :=
  match c with
  | ReloadImage _ _ | LoadNextScript _ _ | LoadNextLink _ _ => true
  | _ => false
  end.

(** [before ++ pat ++ behind] splits [s] at the first occurrence of [pat]. *)
Definition FirstOccurrence (pat s before behind : string) : Prop :=
  s = before ++ pat ++ behind ∧
  ∀ before' behind', s = before' ++ pat ++ behind' →
                     (String.length before ≤ String.length before')%nat.

(** ** A concrete configuration

    The scenario of the specification: [domain = {"a.com": "b.com"}] and
    [maxRetryCount = 1], with an [onRetry] hook that accepts the candidate. *)

Module Sample.

(** A [splitUrl] in the spirit of the absent [./url]: the first key of the
    Domain Map that occurs in the URL, and the text behind it. *)
Definition splitAtDomain (url : string) (dm : gmap string string) : string * string :=
  default ("", "")
    (head (omap (λ kv, match cutAtFirst kv.1 url with
                       | Some (_, behind) => Some (behind, kv.1)
                       | None => None
                       end)
                (map_to_list dm))).

(** A [hashTarget] that joins the kind and the two URL properties. *)
Definition hashByContent (el : Element) : string :=
  (match nodeKind el with
   | ScriptElement => "SCRIPT"
   | LinkElement => "LINK"
   | ImageElement => "IMG"
   | _ => "not_supported"
   end) ++ ";" ++ src el ++ ";" ++ href el.

Definition lib : Collaborators :=
  {| splitUrl := splitAtDomain;
     hashTarget := hashByContent;
     ignoreIdentifier := "data-assets-retry-ignore";
     hookedIdentifier := "data-assets-retry-hooked" |}.

Definition domainMap : gmap string string := {[ "a.com" := "b.com" ]}.

(** [onRetry] accepts the candidate URL as it is. *)
Definition opts : InnerAssetsRetryOptions :=
  {| onRetry := λ newUrl _ _, JString newUrl;
     domain := domainMap;
     maxRetryCount := 1 |}.

Definition script (url : string) (attrs : gmap string string) : Element :=
  {| nodeKind := ScriptElement; attributes := <["src" := url]> attrs;
     src := url; href := "";
     complete := false; naturalWidth := 0; naturalHeight := 0 |}.

Definition stylesheet (url : string) (attrs : gmap string string) : Element :=
  {| nodeKind := LinkElement;
     attributes := <["rel" := "stylesheet"]> (<["href" := url]> attrs);
     src := ""; href := url;
     complete := false; naturalWidth := 0; naturalHeight := 0 |}.

Definition image (url : string) (attrs : gmap string string) : Element :=
  {| nodeKind := ImageElement; attributes := <["src" := url]> attrs;
     src := url; href := "";
     complete := true; naturalWidth := 0; naturalHeight := 0 |}.

Definition on (el : Element) : option Event :=
  Some {| target := Some el; srcElement := Some el |}.

Definition fresh : Session := {| collectors := ∅; retryCache := ∅ |}.

(** The same configuration with another hook and another threshold. *)
Definition optsWith (hook : string → string → Collector → JsValue) (max : Z)
  : InnerAssetsRetryOptions :=
  {| onRetry := hook; domain := domainMap; maxRetryCount := max |}.

(** A Domain Map whose only key has no domain to switch to. *)
Definition optsNoFallback : InnerAssetsRetryOptions :=
  {| onRetry := λ newUrl _ _, JString newUrl;
     domain := {[ "a.com" := "" ]};
     maxRetryCount := 1 |}.

Definition ignored : gmap string string := {[ "data-assets-retry-ignore" := "" ]}.

Definition xjs : string := "http://a.com/x.js".
Definition xcss : string := "http://a.com/x.css".
Definition ipng : string := "http://a.com/i.png".

(** A document whose only style sheet is that of [xcss], with the given
    rule list. *)
Definition docWith (rules : option (list string)) (els : list Element) : Document :=
  {| styleSheets := Some [ {| sheetHref := Some xcss; sheetRules := rules |} ];
     nodes := els |}.

End Sample.


(** ** Vocabulary of the further properties *)

(** [s'] extends [s]: no collector is removed, no retry count goes down, and
    the two URL lists of every domain only grow at their end. *)
Record Extends (s s' : Session) : Prop := {
  ext_kept : ∀ d, is_Some (collectors s !! d) → is_Some (collectors s' !! d);
  ext_retryTimes : ∀ d, retryTimes (collectorOf s d) ≤ retryTimes (collectorOf s' d);
  ext_failed : ∀ d, failed (collectorOf s d) `prefix_of` failed (collectorOf s' d);
  ext_succeeded :
    ∀ d, succeeded (collectorOf s d) `prefix_of` succeeded (collectorOf s' d)
}.

(** Every collector has counted each entry of its [failed] list once. *)
Definition Consistent (s : Session) : Prop :=
  ∀ d c, collectors s !! d = Some c → retryTimes c = length (failed c).

(** A computation stays within [T]: the state it starts from, the calls it
    makes and the state it leaves are related by [T]. *)
Definition Traced {A} (T : Session → list Call → Session → Prop) (m : Js A) : Prop :=
  ∀ s, T s (calls (m s)) (after (m s)).

(** A computation ends normally or with an exception whose message is in
    [E]. *)
Definition ThrowsWithin {A} (E : string → Prop) (m : Js A) : Prop :=
  ∀ s, match completion (m s) with
       | Normal _ => True
       | Thrown msg => E msg
       end.

Section MoreScope.

Context (lib : Collaborators) (opts : InnerAssetsRetryOptions).

(** The URL the script branch of the scan records for [element] under the
    domain [d] (lines 186-193), if any. *)
Definition scannedScriptUrl (d : string) (element : Element) : option string :=
  match getTargetUrl (Some element) with
  | Some url =>
      if truthy url
         && bool_decide (domainOf lib opts url = d)
         && bool_decide (is_Some (domain opts !! d))
         && truthy d
      then Some url
      else None
  | None => None
  end.

(** A reload call whose target is of the right kind, has a source, is neither
    ignore-marked nor (for the replace reloads) hooked, and, for a link, has
    the [rel] of a stylesheet. *)
Definition reloadInScope (c : Call) : bool :=
  match c with
  | ReloadImage el _ =>
      isImage el && truthy (src el)
      && negb (hasAttribute el (ignoreIdentifier lib))
  | LoadNextScript el _ =>
      isScript el && truthy (src el)
      && negb (truthy_opt (getAttribute el (hookedIdentifier lib)))
      && negb (hasAttribute el (ignoreIdentifier lib))
  | LoadNextLink el _ =>
      isLink el && truthy (href el)
      && negb (truthy_opt (getAttribute el (hookedIdentifier lib)))
      && negb (hasAttribute el (ignoreIdentifier lib))
      && negb (relIsNotStylesheet el)
  | _ => true
  end.

(** An [onRetry] call that is made within the threshold and is handed a
    collector that already records the failure it is about: [retryTimes] is
    between 1 and [maxRetryCount] and the original URL is the last entry of
    [failed]. *)
Definition retryWithinThreshold (c : Call) : bool :=
  match c with
  | OnRetry _ originalUrl collector =>
      (0 <? retryTimes collector)
      && (Z.of_nat (retryTimes collector) <=? maxRetryCount opts)%Z
      && bool_decide (last (failed collector) = Some originalUrl)
  | _ => true
  end.

(** An [onRetry] call made for a URL of the domain [d]. *)
Definition isRetryOf (d : string) (c : Call) : bool :=
  match c with
  | OnRetry _ originalUrl _ => bool_decide (domainOf lib opts originalUrl = d)
  | _ => false
  end.

(** The number of [onRetry] calls made for URLs of the domain [d]. *)
Definition retriesOf (d : string) (cs : list Call) : nat :=
  length (List.filter (isRetryOf d) cs).

End MoreScope.

(** * Properties *)

(** ** The collector store *)

Lemma ensureCollector_lookup (d : string) (store : gmap string Collector) :
  ensureCollector d store !! d = Some (default emptyCollector (store !! d)).
Proof.
  unfold ensureCollector. destruct (store !! d) as [c|] eqn:E; cbn.
  - exact E.
  - apply lookup_insert_eq.
Qed.

Lemma ensureCollector_lookup_ne (d d' : string) (store : gmap string Collector) :
  d ≠ d' → ensureCollector d store !! d' = store !! d'.
Proof.
  intros Hne. unfold ensureCollector. destruct (store !! d); [done|].
  by rewrite lookup_insert_ne.
Qed.

Lemma alter_ensureCollector (f : Collector → Collector) (d : string)
      (store : gmap string Collector) :
  alter f d (ensureCollector d store)
  = <[d := f (default emptyCollector (store !! d))]> store.
Proof.
  apply map_eq. intros k. destruct (decide (d = k)) as [<-|Hne].
  - rewrite lookup_alter_eq, ensureCollector_lookup, lookup_insert_eq. done.
  - rewrite lookup_alter_ne, ensureCollector_lookup_ne, lookup_insert_ne; done.
Qed.

Lemma alter_insert_same (f : Collector → Collector) (d : string) (c : Collector)
      (store : gmap string Collector) :
  alter f d (<[d := c]> store) = <[d := f c]> store.
Proof.
  apply map_eq. intros k. destruct (decide (d = k)) as [<-|Hne].
  - by rewrite lookup_alter_eq, !lookup_insert_eq.
  - by rewrite lookup_alter_ne, !lookup_insert_ne.
Qed.

(** ** Equations of the handler monad *)

Lemma preceded_nil {A} (r : Run A) : preceded [] r = r.
Proof. by destruct r. Qed.

Lemma preceded_preceded {A} (cs cs' : list Call) (r : Run A) :
  preceded cs (preceded cs' r) = preceded (cs ++ cs') r.
Proof. unfold preceded; cbn. by rewrite app_assoc. Qed.

Lemma bind_run {A B} (m : Js A) (k : A → Js B) (s s' : Session) cs a :
  m s = {| after := s'; calls := cs; completion := Normal a |} →
  js_bind m k s = preceded cs (k a s').
Proof. intros E. unfold js_bind. by rewrite E. Qed.

Lemma bind_thrown {A B} (m : Js A) (k : A → Js B) (s s' : Session) cs msg :
  m s = {| after := s'; calls := cs; completion := Thrown msg |} →
  js_bind m k s = {| after := s'; calls := cs; completion := Thrown msg |}.
Proof. intros E. unfold js_bind. by rewrite E. Qed.

Lemma bind_ret {A B} (a : A) (k : A → Js B) (s : Session) :
  js_bind (js_ret a) k s = k a s.
Proof. erewrite bind_run by reflexivity. apply preceded_nil. Qed.

Lemma bind_emit {B} (c : Call) (k : unit → Js B) (s : Session) :
  js_bind (emit c) k s = preceded [c] (k tt s).
Proof. by erewrite bind_run by reflexivity. Qed.

Lemma bind_modify {B} (ref : string) (f : Collector → Collector)
      (k : unit → Js B) (s : Session) :
  js_bind (modifyCollector ref f) k s
  = k tt {| collectors := alter f ref (collectors s); retryCache := retryCache s |}.
Proof. erewrite bind_run by reflexivity. apply preceded_nil. Qed.

Lemma bind_read {B} (ref : string) (k : Collector → Js B) (s : Session) :
  js_bind (readCollector ref) k s = k (collectorOf s ref) s.
Proof. erewrite bind_run by reflexivity. apply preceded_nil. Qed.

Lemma bind_cacheHit {B} (h : string) (k : bool → Js B) (s : Session) :
  js_bind (cacheHit h) k s = k (default false (retryCache s !! h)) s.
Proof. erewrite bind_run by reflexivity. apply preceded_nil. Qed.

Lemma bind_cacheMark {B} (h : string) (k : unit → Js B) (s : Session) :
  js_bind (cacheMark h) k s
  = k tt {| collectors := collectors s; retryCache := <[h := true]> (retryCache s) |}.
Proof. erewrite bind_run by reflexivity. apply preceded_nil. Qed.

Lemma bind_assoc {A B C} (m : Js A) (k : A → Js B) (k' : B → Js C) (s : Session) :
  js_bind (js_bind m k) k' s = js_bind m (λ a, js_bind (k a) k') s.
Proof.
  unfold js_bind. destruct (m s) as [s1 cs1 [a|msg]]; cbn; [|done].
  destruct (k a s1) as [s2 cs2 [b|msg]]; cbn; [|done].
  by rewrite app_assoc.
Qed.

Ltac js_step :=
  first
    [ rewrite bind_ret
    | rewrite bind_emit
    | rewrite bind_modify
    | rewrite bind_read
    | rewrite bind_cacheHit
    | rewrite bind_cacheMark ];
  cbv beta.

(** ** [stringReplace] replaces the first occurrence *)

Lemma dropPrefix_Some (pat s behind : string) :
  dropPrefix pat s = Some behind ↔ s = pat ++ behind.
Proof.
  revert s. induction pat as [|a pat IH]; intros s; cbn.
  - split; [by intros [= ->]|by intros ->].
  - destruct s as [|b s].
    + split; discriminate.
    + destruct (Ascii.eqb_spec a b) as [->|Hne].
      * rewrite IH. split; [by intros ->|by intros [= ->]].
      * split; [discriminate|intros [= ? _]; congruence].
Qed.

Lemma dropPrefix_None (pat s : string) :
  dropPrefix pat s = None → ∀ behind, s ≠ pat ++ behind.
Proof.
  intros Hnone behind Heq. apply dropPrefix_Some in Heq. congruence.
Qed.

Lemma cutAtFirst_Some (pat s before behind : string) :
  cutAtFirst pat s = Some (before, behind) → s = before ++ pat ++ behind.
Proof.
  revert before. induction s as [|c s IH]; intros before; cbn.
  - destruct (dropPrefix pat "") as [b|] eqn:E; [|discriminate].
    intros [= <- <-]. by apply dropPrefix_Some in E.
  - destruct (dropPrefix pat (String c s)) as [b|] eqn:E.
    + intros [= <- <-]. by apply dropPrefix_Some in E.
    + destruct (cutAtFirst pat s) as [[b a]|]; [|discriminate].
      intros [= <- <-]. change (String c s = String c (b ++ pat ++ a)).
      f_equal. by apply IH.
Qed.

Lemma cutAtFirst_earliest (pat s before behind : string) :
  cutAtFirst pat s = Some (before, behind) →
  ∀ before' behind', s = before' ++ pat ++ behind' →
                     (String.length before ≤ String.length before')%nat.
Proof.
  revert before. induction s as [|c s IH]; intros before; cbn.
  - destruct (dropPrefix pat "") as [b|]; [|discriminate].
    intros [= <- <-] ? ? _. cbn. lia.
  - destruct (dropPrefix pat (String c s)) as [b|] eqn:E.
    + intros [= <- <-] ? ? _. cbn. lia.
    + destruct (cutAtFirst pat s) as [[b a]|] eqn:Hcut; [|discriminate].
      intros [= <- <-] before' behind' Heq.
      destruct before' as [|c' before'].
      * exfalso. exact (dropPrefix_None _ _ E _ Heq).
      * change (String c s = String c' (before' ++ pat ++ behind')) in Heq.
        injection Heq as -> Heq. cbn.
        specialize (IH b eq_refl _ _ Heq). lia.
Qed.

Lemma cutAtFirst_None (pat s : string) :
  cutAtFirst pat s = None → ∀ before behind, s ≠ before ++ pat ++ behind.
Proof.
  induction s as [|c s IH]; cbn.
  - destruct (dropPrefix pat "") as [b|] eqn:E; [discriminate|].
    intros _ [|c' before'] behind Heq; [|discriminate].
    exact (dropPrefix_None _ _ E _ Heq).
  - destruct (dropPrefix pat (String c s)) as [b|] eqn:E; [discriminate|].
    destruct (cutAtFirst pat s) as [[b a]|]; [discriminate|].
    intros _ [|c' before'] behind Heq.
    + exact (dropPrefix_None _ _ E _ Heq).
    + change (String c s = String c' (before' ++ pat ++ behind)) in Heq.
      injection Heq as -> Heq. by eapply IH.
Qed.

Lemma append_same_length (x x' y y' : string) :
  String.length x = String.length x' → x ++ y = x' ++ y' → x = x' ∧ y = y'.
Proof.
  revert x'. induction x as [|c x IH]; intros [|c' x']; cbn; try discriminate.
  - done.
  - intros [= Hlen] Heq.
    change (String c (x ++ y) = String c' (x' ++ y')) in Heq.
    injection Heq as -> Heq. destruct (IH _ Hlen Heq) as [-> ->]. done.
Qed.

Lemma cutAtFirst_complete (pat s before behind : string) :
  FirstOccurrence pat s before behind → cutAtFirst pat s = Some (before, behind).
Proof.
  intros [Heq Hmin]. destruct (cutAtFirst pat s) as [[b a]|] eqn:Hcut.
  - pose proof (cutAtFirst_Some _ _ _ _ Hcut) as Heq'.
    pose proof (cutAtFirst_earliest _ _ _ _ Hcut _ _ Heq) as Hle.
    pose proof (Hmin _ _ Heq') as Hge.
    rewrite Heq in Heq'.
    destruct (append_same_length before b _ _ ltac:(lia) Heq') as [-> Hrest].
    destruct (append_same_length pat pat _ _ eq_refl Hrest) as [_ ->]. done.
  - exfalso. exact (cutAtFirst_None _ _ Hcut _ _ Heq).
Qed.

Lemma cutAtFirst_sound (pat s before behind : string) :
  cutAtFirst pat s = Some (before, behind) → FirstOccurrence pat s before behind.
Proof.
  intros Hcut. split.
  - by apply cutAtFirst_Some.
  - by eapply cutAtFirst_earliest.
Qed.

Lemma stringReplace_first (s from to before behind : string) :
  FirstOccurrence from s before behind →
  stringReplace s from to = before ++ to ++ behind.
Proof.
  intros H%cutAtFirst_complete. unfold stringReplace. by rewrite H.
Qed.

Lemma stringReplace_absent (s from to : string) :
  (∀ before behind, s ≠ before ++ from ++ behind) →
  stringReplace s from to = s.
Proof.
  intros Habs. unfold stringReplace.
  destruct (cutAtFirst from s) as [[b a]|] eqn:Hcut; [|done].
  apply cutAtFirst_Some in Hcut. exfalso. exact (Habs _ _ Hcut).
Qed.

(** ** Reading collectors *)

Lemma collectorOf_insert (d : string) (c : Collector)
      (store : gmap string Collector) (cache : gmap string bool) :
  collectorOf {| collectors := <[d := c]> store; retryCache := cache |} d = c.
Proof. unfold collectorOf; cbn. by rewrite lookup_insert_eq. Qed.

Lemma collectorOf_insert_ne (d d' : string) (c : Collector)
      (store : gmap string Collector) (cache : gmap string bool) :
  d ≠ d' →
  collectorOf {| collectors := <[d := c]> store; retryCache := cache |} d'
  = default emptyCollector (store !! d').
Proof. intros Hne. unfold collectorOf; cbn. by rewrite lookup_insert_ne. Qed.

Lemma collectorOf_ensure (d d' : string) (store : gmap string Collector)
      (cache : gmap string bool) :
  collectorOf {| collectors := ensureCollector d store; retryCache := cache |} d'
  = default emptyCollector (store !! d').
Proof.
  unfold collectorOf; cbn. destruct (decide (d = d')) as [<-|Hne].
  - by rewrite ensureCollector_lookup.
  - by rewrite ensureCollector_lookup_ne.
Qed.

Section Proofs.

Context (lib : Collaborators) (opts : InnerAssetsRetryOptions).

Lemma classifiedFailure_inv event el url d :
  classifiedFailure lib opts event = Some (el, url, d) →
  ∃ ev, event = Some ev
        ∧ eventTarget ev = Some el
        ∧ getTargetUrl (Some el) = Some url
        ∧ truthy url = true
        ∧ d = (splitUrl lib url (domain opts)).2
        ∧ is_Some (domain opts !! d)
        ∧ truthy d = true
        ∧ isHTMLElement el && hasAttribute el (ignoreIdentifier lib) = false
        ∧ isLink el && relIsNotStylesheet el = false.
Proof.
  unfold classifiedFailure, loadable, domainOf.
  destruct event as [ev|]; [|discriminate].
  destruct (eventTarget ev) as [el'|] eqn:Htgt; [|discriminate].
  destruct (getTargetUrl (Some el')) as [url'|] eqn:Hurl; [|discriminate].
  destruct (truthy url') eqn:Htr; [|discriminate].
  destruct (domain opts !! (splitUrl lib url' (domain opts)).2) as [F|] eqn:Hdm;
    [|discriminate].
  destruct (truthy (splitUrl lib url' (domain opts)).2) eqn:Hd; [|discriminate].
  destruct (isHTMLElement el' && hasAttribute el' (ignoreIdentifier lib)) eqn:Hig;
    [discriminate|].
  destruct (isLink el' && relIsNotStylesheet el') eqn:Hrel; [discriminate|].
  cbn [negb andb]. intros [= <- <- <-]. exists ev. rewrite Hdm. eauto 12.
Qed.

(** ** The failure handler, case by case *)

Lemma final_recorded s d url :
  (Z.of_nat (retryTimes (recordedFailure s d url)) >? maxRetryCount opts)%Z
  = finalAt opts s d.
Proof. reflexivity. Qed.

(** Runs [errorHandler] up to line 75 on a classified failure [H]. *)
Ltac enter_errorHandler H :=
  let ev := fresh "ev" in
  let F := fresh "F" in
  let Htgt := fresh "Htgt" in
  let Hurl := fresh "Hurl" in
  let Htr := fresh "Htr" in
  let Hdom := fresh "Hdom" in
  let HF := fresh "HF" in
  let Hd := fresh "Hd" in
  let Hig := fresh "Hig" in
  let Hrel := fresh "Hrel" in
  pose proof H as (ev & -> & Htgt & Hurl & Htr & Hdom & [F HF] & Hd & Hig & Hrel)
    %classifiedFailure_inv;
  unfold errorHandler; rewrite Htgt, Hurl, Htr; cbn [negb];
  erewrite bind_run;
    [|unfold extractInfoFromUrl; rewrite <- Hdom, HF; reflexivity];
  rewrite preceded_nil, Hd, Hig, Hrel; cbn [negb orb];
  do 3 js_step; cbn [collectors retryCache];
  rewrite alter_ensureCollector, alter_insert_same;
  match goal with
  | |- context [pushFailed ?u (incrRetryTimes (default emptyCollector (collectors ?s !! ?d)))] =>
      change (pushFailed u (incrRetryTimes (default emptyCollector (collectors s !! d))))
        with (recordedFailure s d u)
  end;
  rewrite !collectorOf_insert;
  rewrite !final_recorded;
  rewrite <- ?Hdom;
  clear Htgt Hurl Htr Hd Hig Hrel.

(** Lines 75-84 when the retry is final. *)
Lemma errorHandler_final event el url d s :
  classifiedFailure lib opts event = Some (el, url, d) →
  finalAt opts s d = true →
  errorHandler lib opts event s =
  {| after := {| collectors := <[d := recordedFailure s d url]> (collectors s);
                 retryCache := retryCache s |};
     calls := [OnFail (srcPathOf lib opts url)];
     completion := Normal tt |}.
Proof.
  intros H Hfin. enter_errorHandler H.
  rewrite Hfin, orb_true_r. js_step. reflexivity.
Qed.

(** Lines 75-84 when there is no domain to switch to. *)
Lemma errorHandler_no_fallback event el url d s :
  classifiedFailure lib opts event = Some (el, url, d) →
  finalAt opts s d = false →
  truthy_opt (domain opts !! d) = false →
  errorHandler lib opts event s =
  {| after := {| collectors := <[d := recordedFailure s d url]> (collectors s);
                 retryCache := retryCache s |};
     calls := [];
     completion := Normal tt |}.
Proof.
  intros H Hfin Hno. enter_errorHandler H.
  rewrite Hfin, Hno. cbn [negb orb]. js_step. reflexivity.
Qed.

(** Lines 85-122: the retry itself. *)
Lemma errorHandler_retry event el url d s F :
  classifiedFailure lib opts event = Some (el, url, d) →
  finalAt opts s d = false →
  domain opts !! d = Some F →
  truthy F = true →
  let c := recordedFailure s d url in
  let newUrl := stringReplace url d F in
  let s1 := {| collectors := <[d := c]> (collectors s);
               retryCache := retryCache s |} in
  errorHandler lib opts event s =
  preceded [OnRetry newUrl url c]
    match onRetry opts newUrl url c with
    | JNull => {| after := s1; calls := []; completion := Normal tt |}
    | JString userUrl =>
        if isImage el && truthy (src el)
        then {| after := s1; calls := [ReloadImage el userUrl]; completion := Normal tt |}
        else if default false (retryCache s !! hashTarget lib el)
        then {| after := s1; calls := []; completion := Normal tt |}
        else
          {| after := {| collectors := <[d := c]> (collectors s);
                         retryCache := <[hashTarget lib el := true]> (retryCache s) |};
             calls :=
               if isScript el
                  && negb (truthy_opt (getAttribute el (hookedIdentifier lib)))
                  && truthy (src el)
               then [LoadNextScript el userUrl]
               else if isLink el
                       && negb (truthy_opt (getAttribute el (hookedIdentifier lib)))
                       && truthy (href el)
               then [LoadNextLink el userUrl]
               else [];
             completion := Normal tt |}
    | _ => {| after := s1; calls := [];
              completion := Thrown "a string should be returned in `onRetry` function" |}
    end.
Proof.
  intros H Hfin HF Htr c newUrl s1. enter_errorHandler H.
  rewrite Hfin, HF. cbn [truthy_opt default from_option id]. rewrite Htr. cbn [negb orb].
  js_step. unfold callOnRetry. rewrite bind_assoc. js_step.
  rewrite !collectorOf_insert.
  rewrite bind_assoc. js_step. js_step.
  fold c newUrl. subst s1. f_equal.
  destruct (onRetry opts newUrl url c); try reflexivity.
  destruct (isImage el && truthy (src el)); [reflexivity|].
  js_step. cbn [retryCache].
  destruct (default false (retryCache s !! hashTarget lib el)); [reflexivity|].
  js_step.
  destruct (isScript el && _ && _); [reflexivity|].
  destruct (isLink el && _ && _); reflexivity.
Qed.

(** ** The classifier *)

Lemma extractInfo_unclassified url s :
  domain opts !! domainOf lib opts url = None →
  extractInfoFromUrl lib url (domain opts) s
  = {| after := s; calls := []; completion := Normal (None, None) |}.
Proof. unfold extractInfoFromUrl, domainOf. by intros ->. Qed.

Lemma extractInfo_classified url s F :
  domain opts !! domainOf lib opts url = Some F →
  extractInfoFromUrl lib url (domain opts) s
  = {| after := {| collectors := ensureCollector (domainOf lib opts url) (collectors s);
                   retryCache := retryCache s |};
       calls := [];
       completion := Normal (Some (domainOf lib opts url), Some (domainOf lib opts url)) |}.
Proof. unfold extractInfoFromUrl, domainOf. by intros ->. Qed.

Lemma loadable_inv event el url :
  loadable event = Some (el, url) →
  ∃ ev, event = Some ev
        ∧ eventTarget ev = Some el
        ∧ getTargetUrl (Some el) = Some url
        ∧ truthy url = true.
Proof.
  unfold loadable. destruct event as [ev|]; [|discriminate].
  destruct (eventTarget ev) as [el'|] eqn:Htgt; [|discriminate].
  destruct (getTargetUrl (Some el')) as [url'|] eqn:Hurl; [|discriminate].
  destruct (truthy url') eqn:Htr; [|discriminate].
  intros [= <- <-]. eauto.
Qed.

(** ** The failure handler on notifications it drops *)

Lemma errorHandler_not_loadable event s :
  loadable event = None →
  errorHandler lib opts event s = js_ret tt s.
Proof.
  unfold loadable, errorHandler. destruct event as [ev|]; [|done].
  destruct (eventTarget ev) as [el|]; [|done].
  destruct (getTargetUrl (Some el)) as [url|]; [|done].
  by destruct (truthy url).
Qed.

Lemma errorHandler_unclassified event el url s :
  loadable event = Some (el, url) →
  domain opts !! domainOf lib opts url = None →
  errorHandler lib opts event s = js_ret tt s.
Proof.
  intros (ev & -> & Htgt & Hurl & Htr)%loadable_inv Hno.
  unfold errorHandler. rewrite Htgt, Hurl, Htr. cbn [negb].
  erewrite bind_run by (by apply extractInfo_unclassified).
  by rewrite preceded_nil.
Qed.

Lemma errorHandler_dropped event el url F s :
  loadable event = Some (el, url) →
  domain opts !! domainOf lib opts url = Some F →
  classifiedFailure lib opts event = None →
  errorHandler lib opts event s
  = {| after := {| collectors := ensureCollector (domainOf lib opts url) (collectors s);
                   retryCache := retryCache s |};
       calls := [];
       completion := Normal tt |}.
Proof.
  intros Hl HF Hc. unfold classifiedFailure in Hc. rewrite Hl, HF in Hc.
  apply loadable_inv in Hl as (ev & -> & Htgt & Hurl & Htr).
  unfold errorHandler. rewrite Htgt, Hurl, Htr. cbn [negb].
  erewrite bind_run by (by eapply extractInfo_classified).
  rewrite preceded_nil.
  destruct (truthy (domainOf lib opts url)); [|reflexivity].
  destruct (isHTMLElement el && hasAttribute el (ignoreIdentifier lib));
    [reflexivity|].
  destruct (isLink el && relIsNotStylesheet el); [reflexivity|discriminate].
Qed.

Lemma OutOfScope_not_classified event :
  OutOfScope lib opts event → classifiedFailure lib opts event = None.
Proof.
  unfold classifiedFailure, loadable.
  destruct 1 as [|ev Htgt|ev el Htgt Hurl|ev el url Htgt Hurl Hdm
                 |ev el Htgt Hig|ev el Htgt Hlink Hrel];
    try rewrite Htgt; try done.
  - destruct (getTargetUrl (Some el)) as [url|]; [|done].
    cbn in Hurl. by rewrite Hurl.
  - rewrite Hurl. destruct (truthy url); [|done]. by rewrite Hdm.
  - destruct (getTargetUrl (Some el)) as [url|] eqn:Hurl; [|done].
    destruct (truthy url); [|done].
    destruct (domain opts !! domainOf lib opts url); [|done].
    assert (isHTMLElement el = true) as ->.
    { unfold getTargetUrl in Hurl. unfold isHTMLElement.
      by destruct (nodeKind el). }
    rewrite Hig. cbn. by rewrite andb_false_r.
  - destruct (getTargetUrl (Some el)) as [url|] eqn:Hurl; [|done].
    destruct (truthy url); [|done].
    destruct (domain opts !! domainOf lib opts url); [|done].
    assert (relIsNotStylesheet el = true) as ->.
    { unfold relIsNotStylesheet. destruct (getAttribute el "rel") as [r|]; [|done].
      destruct (String.eqb_spec r "stylesheet"); [congruence|done]. }
    rewrite Hlink. cbn. by rewrite andb_false_r.
Qed.

(** ** The success handler, case by case *)

Lemma errorHandler_ensured event el url F s :
  loadable event = Some (el, url) →
  domain opts !! domainOf lib opts url = Some F →
  errorHandler lib opts event
    {| collectors := ensureCollector (domainOf lib opts url) (collectors s);
       retryCache := retryCache s |}
  = errorHandler lib opts event s.
Proof.
  intros (ev & -> & Htgt & Hurl & Htr)%loadable_inv HF.
  unfold errorHandler. rewrite Htgt, Hurl, Htr. cbn [negb].
  erewrite !bind_run by (by eapply extractInfo_classified).
  cbn [collectors retryCache]. do 2 f_equal.
  f_equal. unfold ensureCollector at 1.
  by rewrite ensureCollector_lookup.
Qed.

Lemma loadHandler_unclassified doc event el url s :
  loadable event = Some (el, url) →
  domain opts !! domainOf lib opts url = None →
  loadHandler lib opts doc event s =
  if negb (isLink el)
  then {| after := s; calls := [OnSuccess (srcPathOf lib opts url)];
          completion := Normal tt |}
  else
    match rulesFor doc el with
    | None => {| after := s; calls := []; completion := Normal tt |}
    | Some rules =>
        if Nat.eqb (length rules) 0
        then {| after := s; calls := []; completion := Normal tt |}
        else {| after := s; calls := [OnSuccess (srcPathOf lib opts url)];
                completion := Normal tt |}
    end.
Proof.
  intros Hl Hno.
  pose proof Hl as (ev & -> & Htgt & Hurl & Htr)%loadable_inv.
  unfold loadHandler. rewrite Htgt, Hurl, Htr. cbn [negb].
  erewrite bind_run by (by apply extractInfo_unclassified).
  rewrite preceded_nil. cbn [snd].
  destruct (negb (isLink el)).
  { by rewrite bind_ret. }
  unfold rulesFor. destruct (styleSheets doc) as [sheets|]; [|done].
  destruct (getCssRules _) as [rules|]; [|done].
  destruct (Nat.eqb (length rules) 0).
  - by apply errorHandler_unclassified with el url.
  - by rewrite bind_ret.
Qed.

Lemma loadHandler_classified doc event el url F s :
  loadable event = Some (el, url) →
  domain opts !! domainOf lib opts url = Some F →
  let d := domainOf lib opts url in
  let trusted :=
    {| after := {| collectors := <[d := pushSucceeded url (collectorOf s d)]> (collectors s);
                   retryCache := retryCache s |};
       calls := [OnSuccess (srcPathOf lib opts url)];
       completion := Normal tt |} in
  loadHandler lib opts doc event s =
  if negb (isLink el) then trusted
  else
    match rulesFor doc el with
    | None => {| after := {| collectors := ensureCollector d (collectors s);
                             retryCache := retryCache s |};
                 calls := []; completion := Normal tt |}
    | Some rules =>
        if Nat.eqb (length rules) 0
        then errorHandler lib opts event s
        else trusted
    end.
Proof.
  intros Hl HF d trusted.
  pose proof Hl as (ev & -> & Htgt & Hurl & Htr)%loadable_inv.
  unfold loadHandler. rewrite Htgt, Hurl, Htr. cbn [negb].
  erewrite bind_run by (by eapply extractInfo_classified).
  rewrite preceded_nil. cbn [snd]. fold d.
  assert (js_bind (modifyCollector d (pushSucceeded url))
            (λ _, emit (OnSuccess (splitUrl lib url (domain opts)).1))
            {| collectors := ensureCollector d (collectors s);
               retryCache := retryCache s |} = trusted) as Htrusted.
  { js_step. cbn [collectors retryCache]. by rewrite alter_ensureCollector. }
  destruct (negb (isLink el)); [exact Htrusted|].
  unfold rulesFor. destruct (styleSheets doc) as [sheets|]; [|done].
  destruct (getCssRules _) as [rules|]; [|done].
  destruct (Nat.eqb (length rules) 0); [|exact Htrusted].
  by eapply errorHandler_ensured.
Qed.

(** ** What any run of the failure handler does to the store *)

Lemma session_eta (s : Session) :
  {| collectors := collectors s; retryCache := retryCache s |} = s.
Proof. by destruct s. Qed.

Lemma errorHandler_none event s :
  classifiedFailure lib opts event = None →
  ∃ store,
    errorHandler lib opts event s
    = {| after := {| collectors := store; retryCache := retryCache s |};
         calls := []; completion := Normal tt |}
    ∧ (store = collectors s ∨ ∃ d, store = ensureCollector d (collectors s)).
Proof.
  intros Hc. destruct (loadable event) as [[el url]|] eqn:Hl.
  - destruct (domain opts !! domainOf lib opts url) as [F|] eqn:HF.
    + eexists. split; [by eapply errorHandler_dropped|]. right. by eexists.
    + exists (collectors s). split; [|by left].
      rewrite session_eta. by eapply errorHandler_unclassified.
  - exists (collectors s). split; [|by left].
    rewrite session_eta. by apply errorHandler_not_loadable.
Qed.

Lemma ensureCollector_preserves d d' c (store : gmap string Collector) :
  store !! d' = Some c → ensureCollector d store !! d' = Some c.
Proof.
  intros H. destruct (decide (d = d')) as [<-|Hne].
  - by rewrite ensureCollector_lookup, H.
  - by rewrite ensureCollector_lookup_ne.
Qed.

Lemma errorHandler_collectors event el url d s :
  classifiedFailure lib opts event = Some (el, url, d) →
  collectors (after (errorHandler lib opts event s))
  = <[d := recordedFailure s d url]> (collectors s).
Proof.
  intros H. destruct (finalAt opts s d) eqn:Hfin.
  { by erewrite errorHandler_final. }
  destruct (truthy_opt (domain opts !! d)) eqn:HF.
  2:{ by erewrite errorHandler_no_fallback. }
  destruct (domain opts !! d) as [F|] eqn:HF'; [|done].
  erewrite errorHandler_retry by done. cbn [preceded after].
  destruct (onRetry opts _ _ _); try reflexivity.
  destruct (isImage el && truthy (src el)); [reflexivity|].
  by destruct (default false _).
Qed.

Lemma errorHandler_no_OnSuccess event s :
  List.filter isOnSuccess (calls (errorHandler lib opts event s)) = [].
Proof.
  destruct (classifiedFailure lib opts event) as [[[el url] d]|] eqn:H.
  2:{ by destruct (errorHandler_none event s H) as (store & -> & _). }
  destruct (finalAt opts s d) eqn:Hfin.
  { by erewrite errorHandler_final. }
  destruct (truthy_opt (domain opts !! d)) eqn:HF.
  2:{ by erewrite errorHandler_no_fallback. }
  destruct (domain opts !! d) as [F|] eqn:HF'; [|done].
  erewrite errorHandler_retry by done. cbn [preceded calls].
  destruct (onRetry opts _ _ _); try reflexivity.
  destruct (isImage el && truthy (src el)); [reflexivity|].
  destruct (default false _); [reflexivity|]. cbn [calls].
  destruct (isScript el && _ && _); [reflexivity|].
  destruct (isLink el && _ && _); reflexivity.
Qed.

Lemma errorHandler_succeeded event s d :
  succeeded (collectorOf (after (errorHandler lib opts event s)) d)
  = succeeded (collectorOf s d).
Proof.
  destruct (classifiedFailure lib opts event) as [[[el url] d']|] eqn:H.
  - unfold collectorOf at 1. erewrite errorHandler_collectors by done.
    destruct (decide (d' = d)) as [->|Hne].
    + by rewrite lookup_insert_eq.
    + by rewrite lookup_insert_ne.
  - destruct (errorHandler_none event s H) as (store & -> & [->|[d' ->]]); cbn.
    + done.
    + by rewrite collectorOf_ensure.
Qed.

(** ** Out-of-scope failures *)

(** C9.  A failure notification that is out of scope, for any of the five
    reasons of [OutOfScope] (no event or target, no loadable URL, a URL whose
    domain is not a key of the Domain Map, an ignore-marked target, a link
    whose [rel] is not "stylesheet"), returns normally without calling
    anything, leaves [retryCache] as it was and leaves every collector as it
    was: a record that existed is untouched, and a domain reads the same
    [retryTimes], [failed] and [succeeded] before and after. *)
Theorem C9_out_of_scope_failure_changes_nothing (event : option Event) (s : Session) :
  OutOfScope lib opts event →
  let r := errorHandler lib opts event s in
  calls r = []
  ∧ completion r = Normal tt
  ∧ retryCache (after r) = retryCache s
  ∧ (∀ d c, collectors s !! d = Some c → collectors (after r) !! d = Some c)
  ∧ (∀ d, collectorOf (after r) d = collectorOf s d).
Proof.
  intros Hout%OutOfScope_not_classified r. subst r.
  destruct (errorHandler_none event s Hout) as (store & -> & Hstore). cbn.
  repeat split.
  - intros d c Hc. destruct Hstore as [->|[d' ->]]; [done|].
    by apply ensureCollector_preserves.
  - intros d. destruct Hstore as [->|[d' ->]]; [done|].
    by rewrite collectorOf_ensure.
Qed.

(** ** Unclassified URLs *)

(** C1, as the code has it.  When the URL of a notification has a domain that
    is not a key of the Domain Map, the failure handler returns at once: the
    state is the one it was given and nothing is called.  The success handler
    leaves the state as it was too (no collector is created or touched) and
    calls neither [onRetry] nor [onFail], but it does not stop at the
    classification: for a script or an image it calls [onSuccess] with the path
    [splitUrl] returns, and for a link it does so when the rule list can be
    read and is not empty. *)
Theorem C1_unclassified_url (doc : Document) (event : option Event)
        (el : Element) (url : string) (s : Session) :
  loadable event = Some (el, url) →
  domain opts !! domainOf lib opts url = None →
  errorHandler lib opts event s
  = {| after := s; calls := []; completion := Normal tt |}
  ∧ let r := loadHandler lib opts doc event s in
    after r = s
    ∧ completion r = Normal tt
    ∧ (calls r = [] ∨ calls r = [OnSuccess (srcPathOf lib opts url)])
    ∧ (isLink el = false → calls r = [OnSuccess (srcPathOf lib opts url)])
    ∧ (isLink el = true →
       (calls r = [OnSuccess (srcPathOf lib opts url)]
        ↔ ∃ rule rules, rulesFor doc el = Some (rule :: rules))).
Proof.
  intros Hl Hno. split.
  { by eapply errorHandler_unclassified. }
  intros r. subst r. erewrite loadHandler_unclassified by done.
  destruct (isLink el); cbn [negb].
  - destruct (rulesFor doc el) as [[|rule rules]|]; cbn; repeat split;
      first [by left | by right | by intros [=] | by eauto
            | by intros (? & ? & [=]) ].
  - repeat split; first [by right | by intros [=]].
Qed.

(** ** Stylesheet successes *)

Lemma rulesFor_sheet doc el sheets sheet :
  styleSheets doc = Some sheets →
  head (List.filter (λ sh, bool_decide (sheetHref sh = Some (href el))) sheets)
  = Some sheet →
  rulesFor doc el = sheetRules sheet.
Proof. unfold rulesFor. by intros -> ->. Qed.

(** C5.  A load-success notification for a link whose URL is classified and
    whose style sheet (the first one of [doc.styleSheets] with the link's
    [href]) is [sheet]:
    - rule list readable and empty: the handler is the failure handler on the
      same event, no success is recorded and [onSuccess] is not called; when
      the failure handler takes the event (the link is not ignore-marked and
      its [rel] is "stylesheet"), [retryTimes] goes up by one and the URL is
      appended to [failed];
    - rule list unreadable: nothing is called and every collector, and
      [retryCache], read as before;
    - rule list not empty: the URL is appended to [succeeded] of the domain's
      collector and [onSuccess] is called with the logical path. *)
Theorem C5_stylesheet_success_is_verified (doc : Document) (event : option Event)
        (el : Element) (url F : string) (sheets : list StyleSheet)
        (sheet : StyleSheet) (s : Session) :
  loadable event = Some (el, url) →
  isLink el = true →
  domain opts !! domainOf lib opts url = Some F →
  styleSheets doc = Some sheets →
  head (List.filter (λ sh, bool_decide (sheetHref sh = Some (href el))) sheets)
  = Some sheet →
  let d := domainOf lib opts url in
  let r := loadHandler lib opts doc event s in
  match sheetRules sheet with
  | Some [] =>
      r = errorHandler lib opts event s
      ∧ List.filter isOnSuccess (calls r) = []
      ∧ (∀ d', succeeded (collectorOf (after r) d') = succeeded (collectorOf s d'))
      ∧ (classifiedFailure lib opts event = Some (el, url, d) →
         retryTimes (collectorOf (after r) d) = S (retryTimes (collectorOf s d))
         ∧ failed (collectorOf (after r) d) = (failed (collectorOf s d) ++ [url])%list)
  | None =>
      calls r = []
      ∧ completion r = Normal tt
      ∧ retryCache (after r) = retryCache s
      ∧ (∀ d', collectorOf (after r) d' = collectorOf s d')
  | Some (_ :: _) =>
      calls r = [OnSuccess (srcPathOf lib opts url)]
      ∧ completion r = Normal tt
      ∧ succeeded (collectorOf (after r) d) = (succeeded (collectorOf s d) ++ [url])%list
      ∧ retryTimes (collectorOf (after r) d) = retryTimes (collectorOf s d)
      ∧ failed (collectorOf (after r) d) = failed (collectorOf s d)
  end.
Proof.
  intros Hl Hlink HF Hsheets Hsheet d r. subst r.
  erewrite loadHandler_classified by done. rewrite Hlink. cbn [negb].
  erewrite rulesFor_sheet by done. fold d.
  destruct (sheetRules sheet) as [[|rule rules]|]; cbn [length Nat.eqb].
  - split; [done|]. split; [apply errorHandler_no_OnSuccess|].
    split; [apply errorHandler_succeeded|].
    intros Hc. unfold collectorOf at 1 3.
    erewrite errorHandler_collectors by done. by rewrite lookup_insert_eq.
  - cbn [after calls completion]. rewrite !collectorOf_insert. done.
  - cbn. repeat split. intros d'. by rewrite collectorOf_ensure.
Qed.

(** ** Steps: retry counts grow and the ledger allows one replace reload *)

Section Steps.

Context (h : string).

Lemma replaceReloads_app cs cs' :
  replaceReloads lib h (cs ++ cs')
  = replaceReloads lib h cs + replaceReloads lib h cs'.
Proof. unfold replaceReloads. by rewrite List.filter_app, length_app. Qed.

Lemma step_refl s : Step lib h s [] s.
Proof. split; cbn; intros; by try lia. Qed.

Lemma step_trans s cs s' cs' s'' :
  Step lib h s cs s' → Step lib h s' cs' s'' → Step lib h s (cs ++ cs') s''.
Proof.
  intros [G1 K1 B1 O1 L1] [G2 K2 B2 O2 L2]. split.
  - intros d. specialize (G1 d). specialize (G2 d). lia.
  - auto.
  - intros Hl. rewrite replaceReloads_app, B1, B2; auto.
  - rewrite replaceReloads_app.
    destruct (replaceReloads lib h cs) as [|[|n]] eqn:E; [lia| |lia].
    rewrite B2; [lia|]. by apply L1.
  - rewrite replaceReloads_app. intros Hsum.
    destruct (replaceReloads lib h cs) as [|[|n]] eqn:E.
    + apply L2. lia.
    + apply K2, L1. done.
    + lia.
Qed.

(** A change of the store alone, which lowers no retry count. *)
Lemma step_store s cs store :
  replaceReloads lib h cs = 0 →
  (∀ d, retryTimes (collectorOf s d)
        ≤ retryTimes (default emptyCollector (store !! d))) →
  Step lib h s cs {| collectors := store; retryCache := retryCache s |}.
Proof.
  intros Hcs Hgrow. split.
  - exact Hgrow.
  - done.
  - done.
  - lia.
  - lia.
Qed.

Lemma sound_ret {A} (a : A) : Sound lib h (js_ret a).
Proof. intros s. apply step_refl. Qed.

Lemma sound_bind {A B} (m : Js A) (k : A → Js B) :
  Sound lib h m → (∀ a, Sound lib h (k a)) → Sound lib h (js_bind m k).
Proof.
  intros Hm Hk s. unfold js_bind. specialize (Hm s).
  destruct (m s) as [s1 cs1 [a|msg]]; cbn in *; [|done].
  eapply step_trans; [done|apply Hk].
Qed.

Lemma sound_forEach {A} (f : A → Js unit) (xs : list A) :
  (∀ x, Sound lib h (f x)) → Sound lib h (forEach f xs).
Proof.
  intros Hf. induction xs as [|x xs IH]; cbn.
  - apply sound_ret.
  - apply sound_bind; [apply Hf|]. by intros _.
Qed.

Lemma sound_modify ref f :
  (∀ c, retryTimes (f c) = retryTimes c) →
  Sound lib h (modifyCollector ref f).
Proof.
  intros Hf s. cbn. apply step_store; [done|]. intros d.
  unfold collectorOf. destruct (decide (ref = d)) as [->|Hne].
  - rewrite lookup_alter_eq. destruct (collectors s !! d); cbn; [|lia].
    rewrite Hf. lia.
  - rewrite lookup_alter_ne by done. lia.
Qed.

Lemma sound_extractInfo url : Sound lib h (extractInfoFromUrl lib url (domain opts)).
Proof.
  intros s. unfold extractInfoFromUrl.
  destruct (domain opts !! _); cbn; [|apply step_refl].
  apply step_store; [done|]. intros d.
  pose proof (collectorOf_ensure (splitUrl lib url (domain opts)).2 d (collectors s)
                (retryCache s)) as E.
  unfold collectorOf in *. cbn in E. rewrite E. lia.
Qed.

Lemma sound_errorHandler event : Sound lib h (errorHandler lib opts event).
Proof.
  intros s.
  destruct (classifiedFailure lib opts event) as [[[el url] d]|] eqn:H.
  2:{ destruct (errorHandler_none event s H) as (store & -> & Hstore). cbn.
      apply step_store; [done|]. intros d.
      destruct Hstore as [->|[d' ->]]; [done|].
      pose proof (collectorOf_ensure d' d (collectors s) (retryCache s)) as E.
      unfold collectorOf in *. cbn in E. rewrite E. lia. }
  assert (∀ d', retryTimes (collectorOf s d')
                ≤ retryTimes (default emptyCollector
                               (<[d := recordedFailure s d url]> (collectors s) !! d')))
    as Hgrow.
  { intros d'. destruct (decide (d = d')) as [<-|Hne].
    - rewrite lookup_insert_eq. cbn. lia.
    - by rewrite lookup_insert_ne. }
  destruct (finalAt opts s d) eqn:Hfin.
  { erewrite errorHandler_final by done. cbn. by apply step_store. }
  destruct (truthy_opt (domain opts !! d)) eqn:HF.
  2:{ erewrite errorHandler_no_fallback by done. cbn. by apply step_store. }
  destruct (domain opts !! d) as [F|] eqn:HF'; [|done].
  erewrite errorHandler_retry by done.
  destruct (onRetry opts _ _ _); cbn; try by apply step_store.
  destruct (isImage el && truthy (src el)); cbn; [by apply step_store|].
  destruct (default false (retryCache s !! hashTarget lib el)) eqn:Hhit; cbn;
    [by apply step_store|].
  assert (retryCache s !! hashTarget lib el ≠ Some true) as Hfresh.
  { intros E. by rewrite E in Hhit. }
  set (cs := if isScript el && _ && _ then _ else _).
  assert (replaceReloads lib h (OnRetry (stringReplace url d F) url
                                  (recordedFailure s d url) :: cs)
          = (if String.eqb (hashTarget lib el) h
             then replaceReloads lib h cs else 0)
          ∧ replaceReloads lib h cs ≤ 1) as [Hcount Hle].
  { subst cs. unfold replaceReloads.
    destruct (isScript el && _ && _); cbn.
    - destruct (String.eqb _ h); cbn; split; lia.
    - destruct (isLink el && _ && _); cbn.
      + destruct (String.eqb _ h); cbn; split; lia.
      + destruct (String.eqb _ h); cbn; split; lia. }
  destruct (String.eqb_spec (hashTarget lib el) h) as [Heq|Hne].
  - subst h. split; unfold Ledgered; cbn [retryCache]; rewrite ?Hcount.
    + exact Hgrow.
    + intros _. apply lookup_insert_eq.
    + done.
    + exact Hle.
    + intros _. apply lookup_insert_eq.
  - split; unfold Ledgered; cbn [retryCache]; rewrite ?Hcount.
    + exact Hgrow.
    + intros E. by rewrite lookup_insert_ne.
    + done.
    + lia.
    + lia.
Qed.

Lemma sound_emit_callback c :
  isReload c = false → Sound lib h (emit c).
Proof.
  intros Hc s. cbn. rewrite <- (session_eta s) at 2. apply step_store; [|done].
  by destruct c.
Qed.

Lemma sound_loadHandler doc event : Sound lib h (loadHandler lib opts doc event).
Proof.
  unfold loadHandler. destruct event as [ev|]; [|apply sound_ret].
  destruct (eventTarget ev) as [el|]; [|apply sound_ret].
  destruct (getTargetUrl (Some el)) as [url|]; [|apply sound_ret].
  destruct (negb (truthy url)); [apply sound_ret|].
  apply sound_bind; [apply sound_extractInfo|]. intros [dom col].
  assert (Sound lib h
            (js_bind
               match (dom, col).2 with
               | Some ref => modifyCollector ref (pushSucceeded url)
               | None => js_ret ()
               end
               (λ _, emit (OnSuccess (splitUrl lib url (domain opts)).1))))
    as Hsucc.
  { apply sound_bind; [|intros _; by apply sound_emit_callback].
    cbn. destruct col; [by apply sound_modify|apply sound_ret]. }
  destruct (negb (isLink el)); [exact Hsucc|].
  destruct (styleSheets doc) as [sheets|]; [|apply sound_ret].
  destruct (getCssRules _) as [rules|]; [|apply sound_ret].
  destruct (Nat.eqb (length rules) 0); [apply sound_errorHandler|exact Hsucc].
Qed.

Lemma sound_scanScript element : Sound lib h (scanScript lib opts element).
Proof.
  unfold scanScript.
  destruct (getTargetUrl (Some element)) as [url|]; [|apply sound_ret].
  destruct (negb (truthy url)); [apply sound_ret|].
  apply sound_bind; [apply sound_extractInfo|]. intros [[d|] [c|]];
    try apply sound_ret.
  destruct (negb (truthy d)); [apply sound_ret|]. by apply sound_modify.
Qed.

Lemma sound_scanLink doc element : Sound lib h (scanLink lib opts doc element).
Proof.
  unfold scanLink.
  destruct (getTargetUrl (Some element)) as [url|]; [|apply sound_ret].
  destruct (negb (truthy url) || _); [apply sound_ret|].
  apply sound_bind; [apply sound_extractInfo|]. intros [[d|] [c|]];
    try apply sound_ret.
  destruct (negb (truthy d)); [apply sound_ret|].
  destruct (hasAttribute _ _); [apply sound_ret|].
  destruct (styleSheets doc) as [sheets|]; [|apply sound_ret].
  destruct (List.find _ sheets) as [sheet|]; [|apply sound_errorHandler].
  destruct (getCssRules _) as [rules|]; [|apply sound_errorHandler].
  destruct (Nat.eqb (length rules) 0); [apply sound_errorHandler|].
  by apply sound_modify.
Qed.

Lemma sound_scanImage element : Sound lib h (scanImage lib opts element).
Proof.
  unfold scanImage.
  destruct (getTargetUrl (Some element)) as [url|]; [|apply sound_ret].
  destruct (negb (truthy url)); [apply sound_ret|].
  apply sound_bind; [apply sound_extractInfo|]. intros [[d|] [c|]];
    try apply sound_ret.
  destruct (negb (truthy d)); [apply sound_ret|].
  destruct (hasAttribute _ _); [apply sound_ret|].
  destruct (complete element && _); [apply sound_errorHandler|].
  destruct (complete element); [by apply sound_modify|apply sound_ret].
Qed.

Lemma sound_processExistingElements doc :
  Sound lib h (processExistingElements lib opts doc).
Proof.
  unfold processExistingElements.
  apply sound_bind; [apply sound_forEach, sound_scanScript|]. intros _.
  apply sound_bind; [apply sound_forEach, sound_scanLink|]. intros _.
  apply sound_forEach, sound_scanImage.
Qed.

Lemma sound_deliver n : Sound lib h (deliver lib opts n).
Proof.
  destruct n; cbn.
  - apply sound_errorHandler.
  - apply sound_loadHandler.
  - apply sound_processExistingElements.
Qed.

Lemma session_step ns s :
  Step lib h s (session lib opts ns s).2 (session lib opts ns s).1.
Proof.
  revert s. induction ns as [|n ns IH]; intros s; cbn.
  - apply step_refl.
  - specialize (IH (after (deliver lib opts n s))).
    destruct (session lib opts ns (after (deliver lib opts n s))) as [s' cs].
    cbn in *. eapply step_trans; [apply sound_deliver|exact IH].
Qed.

End Steps.

(** ** Classified failures *)

Lemma classified_source event el url d :
  classifiedFailure lib opts event = Some (el, url, d) →
  (isLink el = false → src el = url) ∧ (isLink el = true → href el = url).
Proof.
  intros (ev & _ & _ & Hurl & _)%classifiedFailure_inv.
  unfold getTargetUrl in Hurl. unfold isLink.
  destruct (nodeKind el); split; intros; congruence.
Qed.

Lemma classified_image event el url d :
  classifiedFailure lib opts event = Some (el, url, d) →
  isImage el = true →
  isImage el && truthy (src el) = true.
Proof.
  intros H Himg. pose proof H as (ev & _ & _ & _ & Htr & _)%classifiedFailure_inv.
  destruct (classified_source _ _ _ _ H) as [Hsrc _].
  rewrite Himg, Hsrc; [done|]. unfold isImage in Himg. unfold isLink.
  by destruct (nodeKind el).
Qed.

Lemma errorHandler_onFail event el url d s :
  classifiedFailure lib opts event = Some (el, url, d) →
  List.filter isOnFail (calls (errorHandler lib opts event s))
  = if finalAt opts s d then [OnFail (srcPathOf lib opts url)] else [].
Proof.
  intros H. destruct (finalAt opts s d) eqn:Hfin.
  { by erewrite errorHandler_final. }
  destruct (truthy_opt (domain opts !! d)) eqn:HF.
  2:{ by erewrite errorHandler_no_fallback. }
  destruct (domain opts !! d) as [F|] eqn:HF'; [|done].
  erewrite errorHandler_retry by done. cbn [preceded calls].
  destruct (onRetry opts _ _ _); try reflexivity.
  destruct (isImage el && truthy (src el)); [reflexivity|].
  destruct (default false _); [reflexivity|]. cbn [calls].
  destruct (isScript el && _ && _); [reflexivity|].
  destruct (isLink el && _ && _); reflexivity.
Qed.

Lemma errorHandler_retryTimes event s d :
  retryTimes (collectorOf (after (errorHandler lib opts event s)) d)
  = retryTimes (collectorOf s d) + (if failureOf lib opts d event then 1 else 0).
Proof.
  unfold failureOf.
  destruct (classifiedFailure lib opts event) as [[[el url] d']|] eqn:H.
  - unfold collectorOf at 1. erewrite errorHandler_collectors by done.
    destruct (String.eqb_spec d' d) as [->|Hne].
    + rewrite lookup_insert_eq. cbn. lia.
    + rewrite lookup_insert_ne by done. unfold collectorOf. lia.
  - destruct (errorHandler_none event s H) as (store & -> & [->|[d' ->]]); cbn.
    + unfold collectorOf. cbn. lia.
    + rewrite collectorOf_ensure. unfold collectorOf. lia.
Qed.

Lemma failures_retryTimes d evs s :
  retryTimes (collectorOf (session lib opts (map LoadFailure evs) s).1 d)
  = retryTimes (collectorOf s d) + length (List.filter (failureOf lib opts d) evs).
Proof.
  revert s. induction evs as [|ev evs IH]; intros s; cbn.
  - lia.
  - specialize (IH (after (errorHandler lib opts ev s))).
    destruct (session lib opts (map LoadFailure evs) _) as [s' cs]. cbn in *.
    rewrite IH, errorHandler_retryTimes.
    destruct (failureOf lib opts d ev); cbn; lia.
Qed.

(** ** The threshold *)

(** C3.  Start from a state in which the collector of domain [d] has
    [retryTimes = 0] and deliver any failure notifications [evs]; let [k] be
    the number of classified failures of [d] among them.  The next classified
    failure of [d] is the [(k+1)]-th: the handler increments [retryTimes]
    first and compares afterwards, so it calls [onFail] (once, with the
    logical path) exactly when [maxRetryCount < k + 1].  With
    [maxRetryCount = N], the [N]-th classified failure calls no [onFail] and
    the [(N+1)]-th does. *)
Theorem C3_threshold_boundary (d : string) (evs : list (option Event))
        (event : option Event) (el : Element) (url : string) (s : Session) :
  retryTimes (collectorOf s d) = 0 →
  classifiedFailure lib opts event = Some (el, url, d) →
  let k := length (List.filter (failureOf lib opts d) evs) in
  let s' := (session lib opts (map LoadFailure evs) s).1 in
  let r := errorHandler lib opts event s' in
  retryTimes (collectorOf s' d) = k
  ∧ retryTimes (collectorOf (after r) d) = S k
  ∧ List.filter isOnFail (calls r)
    = if (maxRetryCount opts <? Z.of_nat (S k))%Z
      then [OnFail (srcPathOf lib opts url)]
      else [].
Proof.
  intros Hzero H k s' r.
  assert (retryTimes (collectorOf s' d) = k) as Hk.
  { subst s' k. rewrite failures_retryTimes. lia. }
  split; [exact Hk|]. subst r. split.
  - rewrite errorHandler_retryTimes. unfold failureOf. rewrite H, String.eqb_refl. lia.
  - erewrite errorHandler_onFail by done. unfold finalAt. rewrite Hk.
    by rewrite Z.gtb_ltb.
Qed.

(** ** Terminal failures *)

(** C6.  A classified failure that makes [retryTimes] exceed [maxRetryCount]
    calls [onFail] with the logical path and nothing else, whatever the Domain
    Map holds for the domain (a fallback, the empty string); and so does every
    later classified failure of that domain, whatever is delivered in
    between.  A classified failure that is not final and finds no fallback
    domain calls nothing.  In neither case is [onRetry] called or a reload
    made. *)
Theorem C6_terminal_failure (event : option Event) (el : Element)
        (url d : string) (s : Session) :
  classifiedFailure lib opts event = Some (el, url, d) →
  (finalAt opts s d = true →
   calls (errorHandler lib opts event s) = [OnFail (srcPathOf lib opts url)]
   ∧ ∀ ns event' el' url',
       classifiedFailure lib opts event' = Some (el', url', d) →
       calls (errorHandler lib opts event'
                (session lib opts ns (after (errorHandler lib opts event s))).1)
       = [OnFail (srcPathOf lib opts url')])
  ∧ (finalAt opts s d = false →
     truthy_opt (domain opts !! d) = false →
     calls (errorHandler lib opts event s) = []).
Proof.
  intros H. split.
  - intros Hfin. split; [by erewrite errorHandler_final|].
    intros ns event' el' url' H'.
    erewrite errorHandler_final; [done..|].
    pose proof (step_grows _ _ _ _ _
                  (session_step "" ns (after (errorHandler lib opts event s))) d) as Hgrow.
    pose proof (errorHandler_retryTimes event s d) as Hone.
    unfold failureOf in Hone. rewrite H, String.eqb_refl in Hone.
    unfold finalAt in *. apply Z.gtb_lt in Hfin. apply Z.gtb_lt. lia.
  - intros Hfin Hno. by erewrite errorHandler_no_fallback.
Qed.

(** ** The [onRetry] hook *)

(** C7.  On a classified failure that is not final and has a fallback domain,
    [onRetry] is called once, with the candidate URL, the original URL and the
    collector, and what it returns decides the rest:
    - [null]: the handler returns normally, calls nothing more and leaves the
      ledger alone;
    - a string: the handler returns normally and every reload it makes
      carries that string: an image is reloaded with it, a script or a
      stylesheet link that is neither hooked nor ledgered is replaced with it;
    - anything else: the handler ends with the exception of line 94, which
      nothing in the handler catches, having called nothing more. *)
Theorem C7_onRetry_is_authoritative (event : option Event) (el : Element)
        (url d F : string) (s : Session) :
  classifiedFailure lib opts event = Some (el, url, d) →
  finalAt opts s d = false →
  domain opts !! d = Some F →
  truthy F = true →
  let c := recordedFailure s d url in
  let newUrl := stringReplace url d F in
  let r := errorHandler lib opts event s in
  match onRetry opts newUrl url c with
  | JNull =>
      completion r = Normal tt
      ∧ calls r = [OnRetry newUrl url c]
      ∧ retryCache (after r) = retryCache s
  | JString userUrl =>
      completion r = Normal tt
      ∧ (∃ reloads,
            calls r = OnRetry newUrl url c :: reloads
            ∧ (reloads = []
               ∨ reloads = [ReloadImage el userUrl]
               ∨ reloads = [LoadNextScript el userUrl]
               ∨ reloads = [LoadNextLink el userUrl]))
      ∧ (isImage el = true →
         calls r = [OnRetry newUrl url c; ReloadImage el userUrl])
      ∧ (isScript el = true →
         truthy_opt (getAttribute el (hookedIdentifier lib)) = false →
         default false (retryCache s !! hashTarget lib el) = false →
         calls r = [OnRetry newUrl url c; LoadNextScript el userUrl])
      ∧ (isLink el = true →
         truthy_opt (getAttribute el (hookedIdentifier lib)) = false →
         default false (retryCache s !! hashTarget lib el) = false →
         calls r = [OnRetry newUrl url c; LoadNextLink el userUrl])
  | _ =>
      completion r = Thrown "a string should be returned in `onRetry` function"
      ∧ calls r = [OnRetry newUrl url c]
      ∧ retryCache (after r) = retryCache s
  end.
Proof.
  intros H Hfin HF Htr c newUrl r. subst r.
  erewrite errorHandler_retry by done. fold c newUrl.
  pose proof H as (ev & _ & _ & _ & Hurl & _)%classifiedFailure_inv.
  destruct (classified_source _ _ _ _ H) as [Hsrc Hhref].
  destruct (onRetry opts newUrl url c) as [| |userUrl| | |]; try done.
  unfold isImage, isScript, isLink in *.
  destruct (nodeKind el) eqn:Hkind; cbn [andb negb];
    rewrite ?Hsrc, ?Hhref, ?Hurl by done;
    destruct (default false _); cbn;
    try destruct (truthy_opt _); cbn;
    repeat split; first [done | by eauto 7].
Qed.

(** C10.  When [onRetry] returns something that is neither [null] nor a
    string, the handler ends with the exception, and the collector keeps what
    lines 73-74 did to it before: [retryTimes] is one more than it was and the
    URL is the last entry of [failed].  Nothing is rolled back. *)
Theorem C10_exception_keeps_the_recorded_failure (event : option Event)
        (el : Element) (url d F : string) (s : Session) :
  classifiedFailure lib opts event = Some (el, url, d) →
  finalAt opts s d = false →
  domain opts !! d = Some F →
  truthy F = true →
  onRetry opts (stringReplace url d F) url (recordedFailure s d url) ≠ JNull →
  (∀ userUrl,
      onRetry opts (stringReplace url d F) url (recordedFailure s d url)
      ≠ JString userUrl) →
  let r := errorHandler lib opts event s in
  completion r = Thrown "a string should be returned in `onRetry` function"
  ∧ retryTimes (collectorOf (after r) d) = S (retryTimes (collectorOf s d))
  ∧ failed (collectorOf (after r) d) = (failed (collectorOf s d) ++ [url])%list
  ∧ succeeded (collectorOf (after r) d) = succeeded (collectorOf s d).
Proof.
  intros H Hfin HF Htr Hnull Hstr r. subst r. split.
  - erewrite errorHandler_retry by done.
    destruct (onRetry opts _ _ _) as [| |userUrl| | |]; try done.
    by destruct (Hstr userUrl).
  - unfold collectorOf at 1 3 5.
    erewrite errorHandler_collectors by done. by rewrite lookup_insert_eq.
Qed.

(** ** The first failure of a domain *)

(** C8, as the code has it.  Let the domain [d] have the fallback [F], and
    let [maxRetryCount] be at least 1.  The first classified failure under [d]
    ([retryTimes] is still 0) calls [onRetry] exactly once, before anything
    else, with the candidate [stringReplace url d F], the original URL and the
    collector as it is then: [retryTimes = 1] and the URL recorded in
    [failed].  Where [d] occurs in the URL, the candidate is the URL with the
    first occurrence of [d] replaced by [F]. *)
Theorem C8_first_failure_calls_onRetry_once (event : option Event) (el : Element)
        (url d F : string) (s : Session) :
  classifiedFailure lib opts event = Some (el, url, d) →
  retryTimes (collectorOf s d) = 0 →
  (1 ≤ maxRetryCount opts)%Z →
  domain opts !! d = Some F →
  truthy F = true →
  let r := errorHandler lib opts event s in
  ∃ c rest,
    calls r = OnRetry (stringReplace url d F) url c :: rest
    ∧ List.filter isOnRetry rest = []
    ∧ c = recordedFailure s d url
    ∧ retryTimes c = 1
    ∧ failed c = (failed (collectorOf s d) ++ [url])%list
    ∧ (∀ before behind,
          FirstOccurrence d url before behind →
          stringReplace url d F = before ++ F ++ behind).
Proof.
  intros H Hzero Hmax HF Htr r. subst r.
  assert (finalAt opts s d = false) as Hfin.
  { unfold finalAt. rewrite Hzero, Z.gtb_ltb. apply Z.ltb_ge. lia. }
  erewrite errorHandler_retry by done. cbn [preceded calls app].
  eexists _, _. split; [reflexivity|]. split.
  { destruct (onRetry opts _ _ _); try reflexivity.
    destruct (isImage el && truthy (src el)); [reflexivity|].
    destruct (default false _); [reflexivity|]. cbn [calls].
    destruct (isScript el && _ && _); [reflexivity|].
    destruct (isLink el && _ && _); reflexivity. }
  split; [reflexivity|]. split; [cbn; by rewrite Hzero|].
  split; [reflexivity|].
  intros before behind Hocc. by apply stringReplace_first.
Qed.

(** ** One replace reload per element *)

(** C4, as the code has it.  Over a whole session, whatever is delivered and
    whatever the state at its start, at most one replace-element reload
    ([loadNextScript] or [loadNextLink]) is made for the elements that share
    the [hashTarget] of a given element: the ledger entry written before the
    reload stops every later one.  Images do not go through the ledger: a
    classified failure of an image that is not final, has a fallback domain
    and for which [onRetry] returns a string reloads the image with that
    string, whatever the ledger holds, and leaves the ledger as it was. *)
Theorem C4_one_replace_reload_per_element :
  (∀ (ns : list Notification) (s : Session) (el : Element),
      replaceReloads lib (hashTarget lib el) (session lib opts ns s).2 ≤ 1)
  ∧ (∀ (event : option Event) (el : Element) (url d F userUrl : string)
       (s : Session),
        classifiedFailure lib opts event = Some (el, url, d) →
        isImage el = true →
        finalAt opts s d = false →
        domain opts !! d = Some F →
        truthy F = true →
        onRetry opts (stringReplace url d F) url (recordedFailure s d url)
        = JString userUrl →
        calls (errorHandler lib opts event s)
        = [OnRetry (stringReplace url d F) url (recordedFailure s d url);
           ReloadImage el userUrl]
        ∧ retryCache (after (errorHandler lib opts event s)) = retryCache s).
Proof.
  split.
  - intros ns s el. apply (step_at_most_once _ _ _ _ _ (session_step _ ns s)).
  - intros event el url d F userUrl s H Himg Hfin HF Htr Hret.
    erewrite errorHandler_retry by done.
    rewrite Hret, (classified_image _ _ _ _ H Himg). done.
Qed.

(** * Further properties of the handlers *)

(** ** The start-up scan, element by element *)

Lemma synthetic_loadable element url :
  getTargetUrl (Some element) = Some url →
  truthy url = true →
  loadable (syntheticEvent element) = Some (element, url).
Proof.
  intros Hurl Htr. unfold loadable, syntheticEvent, eventTarget. cbn [target].
  by rewrite Hurl, Htr.
Qed.

Lemma synthetic_classified element url d :
  classifiedFailure lib opts (syntheticEvent element) = Some (element, url, d) →
  getTargetUrl (Some element) = Some url
  ∧ truthy url = true
  ∧ d = domainOf lib opts url
  ∧ is_Some (domain opts !! d)
  ∧ truthy d = true
  ∧ hasAttribute element (ignoreIdentifier lib) = false
  ∧ (isLink element = true → relIsNotStylesheet element = false).
Proof.
  intros (ev & Hev & Htgt & Hurl & Htr & Hd & Hkey & Hdt & Hig & Hrel)%classifiedFailure_inv.
  repeat split; try done.
  - apply andb_false_iff in Hig as [Hhtml|Hig]; [|done].
    unfold getTargetUrl in Hurl. unfold isHTMLElement in Hhtml.
    by destruct (nodeKind element).
  - intros Hlink. by rewrite Hlink in Hrel.
Qed.

Lemma scanScript_run element s :
  ∃ store,
    scanScript lib opts element s
    = {| after := {| collectors := store; retryCache := retryCache s |};
         calls := []; completion := Normal tt |}
    ∧ (∀ d, is_Some (collectors s !! d) → is_Some (store !! d))
    ∧ ∀ d, default emptyCollector (store !! d)
           = match scannedScriptUrl lib opts d element with
             | Some url => pushSucceeded url (collectorOf s d)
             | None => collectorOf s d
             end.
Proof.
  unfold scanScript, scannedScriptUrl.
  destruct (getTargetUrl (Some element)) as [url|].
  2:{ exists (collectors s). by rewrite session_eta. }
  destruct (truthy url); cbn [negb andb].
  2:{ exists (collectors s). by rewrite session_eta. }
  destruct (domain opts !! domainOf lib opts url) as [F|] eqn:HF.
  2:{ erewrite bind_run by (by apply extractInfo_unclassified).
      rewrite preceded_nil. exists (collectors s). rewrite session_eta.
      split; [done|]. split; [done|]. intros d.
      destruct (bool_decide_reflect (domainOf lib opts url = d)) as [<-|]; [|done].
      cbn. rewrite HF. rewrite bool_decide_eq_false_2; [done|].
      by intros [? [=]]. }
  erewrite bind_run by (by eapply extractInfo_classified).
  rewrite preceded_nil.
  destruct (truthy (domainOf lib opts url)) eqn:Hd; cbn [negb].
  - eexists. split; [reflexivity|]. cbn [collectors].
    rewrite alter_ensureCollector. split.
    + intros d [c Hc]. destruct (decide (domainOf lib opts url = d)) as [<-|Hne].
      * rewrite lookup_insert_eq. by eexists.
      * rewrite lookup_insert_ne by done. by eexists.
    + intros d.
      destruct (bool_decide_reflect (domainOf lib opts url = d)) as [<-|Hne]; cbn.
      * rewrite lookup_insert_eq, Hd, HF.
        rewrite bool_decide_eq_true_2 by (by eexists). done.
      * by rewrite lookup_insert_ne.
  - eexists. split; [reflexivity|]. cbn [collectors]. split.
    + intros d [c Hc]. eexists. by apply ensureCollector_preserves.
    + intros d.
      pose proof (collectorOf_ensure (domainOf lib opts url) d (collectors s)
                    (retryCache s)) as E.
      unfold collectorOf in E at 1. cbn [collectors] in E. rewrite E.
      destruct (bool_decide_reflect (domainOf lib opts url = d)) as [<-|Hne]; cbn;
        [|done].
      rewrite Hd. by rewrite andb_false_r.
Qed.

(** X1.  The script branch of the start-up scan (lines 185-194), run over
    any list of elements, calls nothing, throws nothing and leaves
    [retryCache], every [retryTimes] and every [failed] list as they were; to
    the [succeeded] list of each domain it appends, in document order, the URLs
    of the elements classified under that domain, whether or not they loaded
    and whether or not they carry the ignore marker. *)
Theorem scan_of_scripts_only_records_successes (scripts : list Element) (s : Session) :
  let r := forEach (scanScript lib opts) scripts s in
  calls r = []
  ∧ completion r = Normal tt
  ∧ retryCache (after r) = retryCache s
  ∧ ∀ d, retryTimes (collectorOf (after r) d) = retryTimes (collectorOf s d)
         ∧ failed (collectorOf (after r) d) = failed (collectorOf s d)
         ∧ succeeded (collectorOf (after r) d)
           = (succeeded (collectorOf s d)
              ++ omap (scannedScriptUrl lib opts d) scripts)%list.
Proof.
  revert s. induction scripts as [|el scripts IH]; intros s; cbn zeta.
  - cbn. repeat split. by rewrite app_nil_r.
  - cbn [forEach].
    destruct (scanScript_run el s) as (store & Hrun & _ & Hstore).
    erewrite bind_run by exact Hrun. rewrite preceded_nil.
    destruct (IH {| collectors := store; retryCache := retryCache s |})
      as (Hcalls & Hdone & Hcache & Hcol).
    split; [exact Hcalls|]. split; [exact Hdone|]. split; [exact Hcache|].
    intros d. destruct (Hcol d) as (Ht & Hf & Hs). rewrite Ht, Hf, Hs.
    unfold collectorOf at 1 3 5. cbn [collectors]. rewrite (Hstore d).
    destruct (scannedScriptUrl lib opts d el) as [url|] eqn:E; cbn; rewrite E.
    + repeat split. by rewrite <- app_assoc.
    + done.
Qed.

(** ** The stylesheet branch of the scan *)

Lemma scanLink_run doc element url d s :
  classifiedFailure lib opts (syntheticEvent element) = Some (element, url, d) →
  relIsNotStylesheet element = false →
  scanLink lib opts doc element s =
  match styleSheets doc with
  | None =>
      {| after := {| collectors := ensureCollector d (collectors s);
                     retryCache := retryCache s |};
         calls := []; completion := Normal tt |}
  | Some sheets =>
      match List.find (λ sh, bool_decide (sheetHref sh = Some (href element))) sheets with
      | Some sheet =>
          match sheetRules sheet with
          | Some (_ :: _) =>
              {| after := {| collectors :=
                               <[d := pushSucceeded url (collectorOf s d)]> (collectors s);
                             retryCache := retryCache s |};
                 calls := []; completion := Normal tt |}
          | _ => errorHandler lib opts (syntheticEvent element) s
          end
      | None => errorHandler lib opts (syntheticEvent element) s
      end
  end.
Proof.
  intros H Hrel.
  destruct (synthetic_classified _ _ _ H) as (Hurl & Htr & -> & [F HF] & Hd & Hig & _).
  unfold scanLink. rewrite Hurl, Htr, Hrel. cbn [negb orb].
  erewrite bind_run by (by eapply extractInfo_classified).
  rewrite preceded_nil, Hd, Hig. cbn [negb].
  assert (errorHandler lib opts (syntheticEvent element)
            {| collectors := ensureCollector (domainOf lib opts url) (collectors s);
               retryCache := retryCache s |}
          = errorHandler lib opts (syntheticEvent element) s) as Herr.
  { eapply errorHandler_ensured; [by apply synthetic_loadable|done]. }
  destruct (styleSheets doc) as [sheets|]; [|done].
  destruct (List.find _ sheets) as [sheet|]; [|exact Herr].
  cbn [getCssRules]. destruct (sheetRules sheet) as [[|rule rules]|];
    cbn [length Nat.eqb]; try exact Herr.
  unfold modifyCollector. cbn [collectors retryCache].
  by rewrite alter_ensureCollector.
Qed.

(** X2.  The stylesheet branch of the scan (lines 197-227) on a link the
    failure handler would take (classified URL, [rel] "stylesheet", no ignore
    marker), where the [styleSheets] API exists: when no style sheet has the
    link's [href], or the rule list of the first one that has it is unreadable
    or empty, the scan is the failure handler on the synthetic event, from the
    same state; otherwise it appends the URL to [succeeded] and calls
    nothing, not even [onSuccess]. *)
Theorem scan_of_a_stylesheet (doc : Document) (sheets : list StyleSheet)
        (element : Element) (url d : string) (s : Session) :
  classifiedFailure lib opts (syntheticEvent element) = Some (element, url, d) →
  isLink element = true →
  styleSheets doc = Some sheets →
  let r := scanLink lib opts doc element s in
  match List.find (λ sh, bool_decide (sheetHref sh = Some (href element))) sheets with
  | None => r = errorHandler lib opts (syntheticEvent element) s
  | Some sheet =>
      match sheetRules sheet with
      | None | Some [] => r = errorHandler lib opts (syntheticEvent element) s
      | Some (_ :: _) =>
          calls r = []
          ∧ completion r = Normal tt
          ∧ retryCache (after r) = retryCache s
          ∧ collectorOf (after r) d = pushSucceeded url (collectorOf s d)
          ∧ ∀ d', d' ≠ d → collectors (after r) !! d' = collectors s !! d'
      end
  end.
Proof.
  intros H Hlink Hsheets r. subst r.
  destruct (synthetic_classified _ _ _ H) as (_ & _ & _ & _ & _ & _ & Hrel).
  erewrite scanLink_run by eauto. rewrite Hsheets.
  destruct (List.find _ sheets) as [sheet|]; [|done].
  destruct (sheetRules sheet) as [[|rule rules]|]; try done.
  cbn [after calls completion retryCache]. rewrite collectorOf_insert.
  repeat split. intros d' Hne. cbn. by rewrite lookup_insert_ne.
Qed.

(** ** The image branch of the scan *)

Lemma scanImage_run element url d s :
  classifiedFailure lib opts (syntheticEvent element) = Some (element, url, d) →
  scanImage lib opts element s =
  if complete element
     && (Nat.eqb (naturalWidth element) 0 || Nat.eqb (naturalHeight element) 0)
  then errorHandler lib opts (syntheticEvent element) s
  else if complete element
  then {| after := {| collectors :=
                        <[d := pushSucceeded url (collectorOf s d)]> (collectors s);
                      retryCache := retryCache s |};
          calls := []; completion := Normal tt |}
  else {| after := {| collectors := ensureCollector d (collectors s);
                      retryCache := retryCache s |};
          calls := []; completion := Normal tt |}.
Proof.
  intros H.
  destruct (synthetic_classified _ _ _ H) as (Hurl & Htr & -> & [F HF] & Hd & Hig & _).
  unfold scanImage. rewrite Hurl, Htr. cbn [negb].
  erewrite bind_run by (by eapply extractInfo_classified).
  rewrite preceded_nil, Hd, Hig. cbn [negb].
  destruct (complete element && _).
  { eapply errorHandler_ensured; [by apply synthetic_loadable|done]. }
  destruct (complete element); [|done].
  unfold modifyCollector. cbn [collectors retryCache].
  by rewrite alter_ensureCollector.
Qed.

(** X3.  The image branch of the scan (lines 230-249) on an image the failure
    handler would take: a complete image with a zero natural width or a zero
    natural height is handed to the failure handler; a complete image with
    both non-zero has its URL appended to [succeeded] and nothing is called;
    an image that is not complete yet is left alone: nothing is called and
    every domain reads as before. *)
Theorem scan_of_an_image (element : Element) (url d : string) (s : Session) :
  classifiedFailure lib opts (syntheticEvent element) = Some (element, url, d) →
  let r := scanImage lib opts element s in
  (complete element = true →
   naturalWidth element = 0 ∨ naturalHeight element = 0 →
   r = errorHandler lib opts (syntheticEvent element) s)
  ∧ (complete element = true →
     naturalWidth element ≠ 0 →
     naturalHeight element ≠ 0 →
     calls r = []
     ∧ completion r = Normal tt
     ∧ retryCache (after r) = retryCache s
     ∧ collectorOf (after r) d = pushSucceeded url (collectorOf s d))
  ∧ (complete element = false →
     calls r = []
     ∧ completion r = Normal tt
     ∧ retryCache (after r) = retryCache s
     ∧ ∀ d', collectorOf (after r) d' = collectorOf s d').
Proof.
  intros H r. subst r. erewrite scanImage_run by done.
  split; [|split].
  - intros -> [->| ->]; cbn [andb Nat.eqb orb]; [done|].
    by rewrite orb_true_r.
  - intros -> Hw Hh.
    apply Nat.eqb_neq in Hw, Hh. rewrite Hw, Hh. cbn [andb orb after calls completion].
    by rewrite collectorOf_insert.
  - intros ->. cbn [andb after calls completion]. repeat split.
    intros d'. by rewrite collectorOf_ensure.
Qed.

(** ** The ignore marker in the scan *)

(** X4.  The stylesheet and image branches of the scan skip an element that
    carries the ignore marker (lines 204 and 237): nothing is called, nothing
    is thrown, [retryCache] is as it was and every domain reads the same
    collector as before. *)
Theorem scan_skips_ignored_links_and_images (doc : Document) (element : Element)
        (s : Session) :
  hasAttribute element (ignoreIdentifier lib) = true →
  (let r := scanLink lib opts doc element s in
   calls r = []
   ∧ completion r = Normal tt
   ∧ retryCache (after r) = retryCache s
   ∧ ∀ d, collectorOf (after r) d = collectorOf s d)
  ∧ (let r := scanImage lib opts element s in
     calls r = []
     ∧ completion r = Normal tt
     ∧ retryCache (after r) = retryCache s
     ∧ ∀ d, collectorOf (after r) d = collectorOf s d).
Proof.
  intros Hig.
  assert (∀ url,
            let r := js_bind (extractInfoFromUrl lib url (domain opts))
                       (λ info, match info with
                                | (Some currentDomain, Some currentCollector) =>
                                    if negb (truthy currentDomain) then js_ret tt
                                    else js_ret tt
                                | _ => js_ret tt
                                end) s in
            calls r = [] ∧ completion r = Normal tt
            ∧ retryCache (after r) = retryCache s
            ∧ ∀ d, collectorOf (after r) d = collectorOf s d) as Hskip.
  { intros url. cbn zeta.
    destruct (domain opts !! domainOf lib opts url) as [F|] eqn:HF.
    - erewrite bind_run by (by eapply extractInfo_classified).
      rewrite preceded_nil. destruct (negb _); cbn; repeat split;
        intros d; by rewrite collectorOf_ensure.
    - erewrite bind_run by (by apply extractInfo_unclassified).
      by rewrite preceded_nil. }
  split; cbn zeta.
  - unfold scanLink. destruct (getTargetUrl (Some element)) as [url|]; [|done].
    destruct (negb (truthy url) || _); [done|].
    specialize (Hskip url). cbn zeta in Hskip. rewrite Hig.
    unfold js_bind in *. destruct (extractInfoFromUrl lib url (domain opts) s)
      as [s1 cs1 [[[dm|] [col|]]|msg]]; cbn in *;
      first [exact Hskip | destruct (negb (truthy dm)); exact Hskip].
  - unfold scanImage. destruct (getTargetUrl (Some element)) as [url|]; [|done].
    destruct (negb (truthy url)); [done|].
    specialize (Hskip url). cbn zeta in Hskip. rewrite Hig.
    unfold js_bind in *. destruct (extractInfoFromUrl lib url (domain opts) s)
      as [s1 cs1 [[[dm|] [col|]]|msg]]; cbn in *;
      first [exact Hskip | destruct (negb (truthy dm)); exact Hskip].
Qed.

(** ** What one run of the failure handler calls *)

(** X5.  Whatever the notification and the state, one run of the failure
    handler makes one of four call sequences: none; [onFail] alone, when the
    retry is final; [onRetry] alone; or [onRetry] followed by exactly one
    reload of the event's own target, of the kind of that target, with the
    string that very [onRetry] call returned.  So [onFail] and [onRetry] are
    never both called for one failure, nothing is reloaded without asking
    [onRetry] first, and [onSuccess] is never called. *)
Theorem failure_handler_call_shapes (event : option Event) (s : Session) :
  let cs := calls (errorHandler lib opts event s) in
  cs = []
  ∨ ∃ el url d,
      classifiedFailure lib opts event = Some (el, url, d)
      ∧ (finalAt opts s d = true ∧ cs = [OnFail (srcPathOf lib opts url)]
         ∨ ∃ F,
             finalAt opts s d = false
             ∧ domain opts !! d = Some F
             ∧ truthy F = true
             ∧ let c := recordedFailure s d url in
               let newUrl := stringReplace url d F in
               cs = [OnRetry newUrl url c]
               ∨ ∃ userUrl,
                   onRetry opts newUrl url c = JString userUrl
                   ∧ (isImage el = true
                      ∧ cs = [OnRetry newUrl url c; ReloadImage el userUrl]
                      ∨ isScript el = true
                        ∧ truthy_opt (getAttribute el (hookedIdentifier lib)) = false
                        ∧ default false (retryCache s !! hashTarget lib el) = false
                        ∧ cs = [OnRetry newUrl url c; LoadNextScript el userUrl]
                      ∨ isLink el = true
                        ∧ truthy_opt (getAttribute el (hookedIdentifier lib)) = false
                        ∧ default false (retryCache s !! hashTarget lib el) = false
                        ∧ cs = [OnRetry newUrl url c; LoadNextLink el userUrl])).
Proof.
  cbn zeta.
  destruct (classifiedFailure lib opts event) as [[[el url] d]|] eqn:H.
  2:{ left. by destruct (errorHandler_none event s H) as (store & -> & _). }
  destruct (finalAt opts s d) eqn:Hfin.
  { right. exists el, url, d. split; [done|]. left.
    by erewrite errorHandler_final. }
  destruct (truthy_opt (domain opts !! d)) eqn:HF.
  2:{ left. by erewrite errorHandler_no_fallback. }
  destruct (domain opts !! d) as [F|] eqn:HF'; [|done].
  right. exists el, url, d. split; [done|]. right. exists F.
  split; [done|]. split; [done|]. split; [done|].
  erewrite errorHandler_retry by done. cbn [preceded calls].
  destruct (onRetry opts _ _ _) as [| |userUrl| | |] eqn:Hret; try (by left).
  destruct (isImage el && truthy (src el)) eqn:Himg.
  { right. exists userUrl. split; [done|]. left.
    apply andb_true_iff in Himg as [Himg _]. done. }
  destruct (default false (retryCache s !! hashTarget lib el)) eqn:Hhit;
    [by left|]. cbn [calls app].
  destruct (isScript el && _ && truthy (src el)) eqn:Hscript.
  { right. exists userUrl. split; [done|]. right. left.
    apply andb_true_iff in Hscript as [[Hs Hh]%andb_true_iff _].
    apply negb_true_iff in Hh. done. }
  destruct (isLink el && _ && truthy (href el)) eqn:Hlink; [|by left].
  right. exists userUrl. split; [done|]. right. right.
  apply andb_true_iff in Hlink as [[Hs Hh]%andb_true_iff _].
  apply negb_true_iff in Hh. done.
Qed.

(** ** Relations every notification keeps *)

Section Traced.

Context (R : Session → list Call → Session → Prop).
Hypothesis R_refl : ∀ s, R s [] s.
Hypothesis R_trans :
  ∀ s1 cs1 s2 cs2 s3, R s1 cs1 s2 → R s2 cs2 s3 → R s1 (cs1 ++ cs2)%list s3.
Hypothesis R_classify : ∀ url, Traced R (extractInfoFromUrl lib url (domain opts)).
Hypothesis R_record : ∀ ref url, Traced R (modifyCollector ref (pushSucceeded url)).
Hypothesis R_onSuccess : ∀ p, Traced R (emit (OnSuccess p)).
Hypothesis R_failure : ∀ event, Traced R (errorHandler lib opts event).

Lemma traced_ret {A} (a : A) : Traced R (js_ret a).
Proof. intros s. apply R_refl. Qed.

Lemma traced_bind {A B} (m : Js A) (k : A → Js B) :
  Traced R m → (∀ a, Traced R (k a)) → Traced R (js_bind m k).
Proof.
  intros Hm Hk s. unfold js_bind. specialize (Hm s).
  destruct (m s) as [s1 cs1 [a|msg]]; cbn in *; [|done].
  eapply R_trans; [done|apply Hk].
Qed.

Lemma traced_forEach {A} (f : A → Js unit) (xs : list A) :
  (∀ x, Traced R (f x)) → Traced R (forEach f xs).
Proof.
  intros Hf. induction xs as [|x xs IH]; cbn.
  - apply traced_ret.
  - apply traced_bind; [apply Hf|]. by intros _.
Qed.

Lemma traced_loadHandler doc event : Traced R (loadHandler lib opts doc event).
Proof.
  unfold loadHandler. destruct event as [ev|]; [|apply traced_ret].
  destruct (eventTarget ev) as [el|]; [|apply traced_ret].
  destruct (getTargetUrl (Some el)) as [url|]; [|apply traced_ret].
  destruct (negb (truthy url)); [apply traced_ret|].
  apply traced_bind; [apply R_classify|]. intros [dom col].
  assert (Traced R
            (js_bind
               match (dom, col).2 with
               | Some ref => modifyCollector ref (pushSucceeded url)
               | None => js_ret ()
               end
               (λ _, emit (OnSuccess (splitUrl lib url (domain opts)).1))))
    as Hsucc.
  { apply traced_bind; [|intros _; apply R_onSuccess].
    cbn. destruct col; [apply R_record|apply traced_ret]. }
  destruct (negb (isLink el)); [exact Hsucc|].
  destruct (styleSheets doc) as [sheets|]; [|apply traced_ret].
  destruct (getCssRules _) as [rules|]; [|apply traced_ret].
  destruct (Nat.eqb (length rules) 0); [apply R_failure|exact Hsucc].
Qed.

Lemma traced_scanScript element : Traced R (scanScript lib opts element).
Proof.
  unfold scanScript.
  destruct (getTargetUrl (Some element)) as [url|]; [|apply traced_ret].
  destruct (negb (truthy url)); [apply traced_ret|].
  apply traced_bind; [apply R_classify|]. intros [[d|] [c|]];
    try apply traced_ret.
  destruct (negb (truthy d)); [apply traced_ret|]. apply R_record.
Qed.

Lemma traced_scanLink doc element : Traced R (scanLink lib opts doc element).
Proof.
  unfold scanLink.
  destruct (getTargetUrl (Some element)) as [url|]; [|apply traced_ret].
  destruct (negb (truthy url) || _); [apply traced_ret|].
  apply traced_bind; [apply R_classify|]. intros [[d|] [c|]];
    try apply traced_ret.
  destruct (negb (truthy d)); [apply traced_ret|].
  destruct (hasAttribute _ _); [apply traced_ret|].
  destruct (styleSheets doc) as [sheets|]; [|apply traced_ret].
  destruct (List.find _ sheets) as [sheet|]; [|apply R_failure].
  destruct (getCssRules _) as [rules|]; [|apply R_failure].
  destruct (Nat.eqb (length rules) 0); [apply R_failure|].
  apply R_record.
Qed.

Lemma traced_scanImage element : Traced R (scanImage lib opts element).
Proof.
  unfold scanImage.
  destruct (getTargetUrl (Some element)) as [url|]; [|apply traced_ret].
  destruct (negb (truthy url)); [apply traced_ret|].
  apply traced_bind; [apply R_classify|]. intros [[d|] [c|]];
    try apply traced_ret.
  destruct (negb (truthy d)); [apply traced_ret|].
  destruct (hasAttribute _ _); [apply traced_ret|].
  destruct (complete element && _); [apply R_failure|].
  destruct (complete element); [apply R_record|apply traced_ret].
Qed.

Lemma traced_processExistingElements doc :
  Traced R (processExistingElements lib opts doc).
Proof.
  unfold processExistingElements.
  apply traced_bind; [apply traced_forEach, traced_scanScript|]. intros _.
  apply traced_bind; [apply traced_forEach, traced_scanLink|]. intros _.
  apply traced_forEach, traced_scanImage.
Qed.

Lemma traced_deliver n : Traced R (deliver lib opts n).
Proof.
  destruct n; cbn.
  - apply R_failure.
  - apply traced_loadHandler.
  - apply traced_processExistingElements.
Qed.

Lemma traced_session ns s :
  R s (session lib opts ns s).2 (session lib opts ns s).1.
Proof.
  revert s. induction ns as [|n ns IH]; intros s; cbn.
  - apply R_refl.
  - specialize (IH (after (deliver lib opts n s))).
    destruct (session lib opts ns (after (deliver lib opts n s))) as [s' cs].
    cbn in *. eapply R_trans; [apply traced_deliver|exact IH].
Qed.

End Traced.

(** ** Collectors only grow *)

Lemma extends_refl s : Extends s s.
Proof. split; intros; done. Qed.

Lemma extends_trans s1 s2 s3 : Extends s1 s2 → Extends s2 s3 → Extends s1 s3.
Proof.
  intros [K1 T1 F1 S1] [K2 T2 F2 S2]. split.
  - auto.
  - intros d. specialize (T1 d). specialize (T2 d). lia.
  - intros d. etrans; [apply F1|apply F2].
  - intros d. etrans; [apply S1|apply S2].
Qed.

(** A store that changes one record, by a function that only grows it. *)
Lemma extends_insert s d c :
  retryTimes (collectorOf s d) ≤ retryTimes c →
  failed (collectorOf s d) `prefix_of` failed c →
  succeeded (collectorOf s d) `prefix_of` succeeded c →
  Extends s {| collectors := <[d := c]> (collectors s); retryCache := retryCache s |}.
Proof.
  intros Ht Hf Hs. split; intros d'.
  - cbn. destruct (decide (d = d')) as [<-|Hne].
    + rewrite lookup_insert_eq. by eexists.
    + by rewrite lookup_insert_ne.
  - destruct (decide (d = d')) as [<-|Hne].
    + by rewrite collectorOf_insert.
    + by rewrite collectorOf_insert_ne.
  - destruct (decide (d = d')) as [<-|Hne].
    + by rewrite collectorOf_insert.
    + by rewrite collectorOf_insert_ne.
  - destruct (decide (d = d')) as [<-|Hne].
    + by rewrite collectorOf_insert.
    + by rewrite collectorOf_insert_ne.
Qed.

Lemma extends_ensure s d cache :
  Extends s {| collectors := ensureCollector d (collectors s); retryCache := cache |}.
Proof.
  split; intros d'; rewrite ?collectorOf_ensure; try done.
  intros [c Hc]. exists c. by apply ensureCollector_preserves.
Qed.

Lemma extends_cache s store cache cache' :
  Extends s {| collectors := store; retryCache := cache |} →
  Extends s {| collectors := store; retryCache := cache' |}.
Proof. intros [K T F S]. by split. Qed.

Lemma extends_classify url :
  Traced (λ s _ s', Extends s s') (extractInfoFromUrl lib url (domain opts)).
Proof.
  intros s. unfold extractInfoFromUrl.
  destruct (domain opts !! _); cbn; [apply extends_ensure|apply extends_refl].
Qed.

Lemma extends_success ref url :
  Traced (λ s _ s', Extends s s') (modifyCollector ref (pushSucceeded url)).
Proof.
  intros s. cbn. destruct (collectors s !! ref) as [c|] eqn:Hc.
  - replace (alter (pushSucceeded url) ref (collectors s))
      with (<[ref := pushSucceeded url c]> (collectors s)).
    2:{ apply map_eq. intros k. destruct (decide (ref = k)) as [<-|Hne].
        - by rewrite lookup_insert_eq, lookup_alter_eq, Hc.
        - by rewrite lookup_insert_ne, lookup_alter_ne. }
    apply extends_insert; unfold collectorOf; rewrite Hc; cbn; try done.
    by apply prefix_app_r.
  - replace (alter (pushSucceeded url) ref (collectors s)) with (collectors s).
    2:{ apply map_eq. intros k. destruct (decide (ref = k)) as [<-|Hne].
        - by rewrite lookup_alter_eq, Hc.
        - by rewrite lookup_alter_ne. }
    rewrite session_eta. apply extends_refl.
Qed.

Lemma extends_failure event :
  Traced (λ s _ s', Extends s s') (errorHandler lib opts event).
Proof.
  intros s.
  destruct (classifiedFailure lib opts event) as [[[el url] d]|] eqn:H.
  - pose proof (errorHandler_collectors event el url d s H) as Hcol.
    destruct (after (errorHandler lib opts event s)) as [store cache].
    cbn in Hcol. subst store.
    apply extends_cache with (retryCache s).
    apply extends_insert; cbn; [lia|by apply prefix_app_r|done].
  - destruct (errorHandler_none event s H) as (store & -> & [->|[d ->]]); cbn.
    + rewrite session_eta. apply extends_refl.
    + apply extends_ensure.
Qed.

(** X6.  Over any session (failure and success notifications and start-up
    scans, in any order, from any state) no collector is ever removed, no
    [retryTimes] ever goes down, and the [failed] and [succeeded] lists of
    every domain are append-only: what they held at the start is a prefix of
    what they hold at the end. *)
Theorem collectors_are_append_only (ns : list Notification) (s : Session) :
  Extends s (session lib opts ns s).1.
Proof.
  apply (traced_session (λ s _ s', Extends s s')).
  - apply extends_refl.
  - intros s1 _ s2 _ s3. apply extends_trans.
  - apply extends_classify.
  - apply extends_success.
  - intros p s'. apply extends_refl.
  - apply extends_failure.
Qed.

(** ** [retryTimes] counts the entries of [failed] *)

Lemma consistent_insert s d c cache :
  Consistent s →
  retryTimes c = length (failed c) →
  Consistent {| collectors := <[d := c]> (collectors s); retryCache := cache |}.
Proof.
  intros Hs Hc d' c'. cbn. destruct (decide (d = d')) as [<-|Hne].
  - rewrite lookup_insert_eq. by intros [= <-].
  - rewrite lookup_insert_ne by done. apply Hs.
Qed.

Lemma consistent_collectorOf s d :
  Consistent s → retryTimes (collectorOf s d) = length (failed (collectorOf s d)).
Proof.
  intros Hs. unfold collectorOf. destruct (collectors s !! d) as [c|] eqn:Hc; cbn.
  - by apply (Hs d).
  - done.
Qed.

Lemma consistent_ensure s d cache :
  Consistent s →
  Consistent {| collectors := ensureCollector d (collectors s); retryCache := cache |}.
Proof.
  intros Hs. unfold ensureCollector. destruct (collectors s !! d) eqn:Hd.
  - intros d' c'. cbn. apply Hs.
  - by apply consistent_insert.
Qed.

Lemma consistent_classify url :
  Traced (λ s _ s', Consistent s → Consistent s')
         (extractInfoFromUrl lib url (domain opts)).
Proof.
  intros s Hs. unfold extractInfoFromUrl.
  destruct (domain opts !! _); cbn; [by apply consistent_ensure|done].
Qed.

Lemma consistent_success ref url :
  Traced (λ s _ s', Consistent s → Consistent s')
         (modifyCollector ref (pushSucceeded url)).
Proof.
  intros s Hs d c. cbn. destruct (decide (ref = d)) as [<-|Hne].
  - rewrite lookup_alter_eq. destruct (collectors s !! ref) as [c0|] eqn:Hc; [|done].
    intros [= <-]. cbn. by apply (Hs ref).
  - rewrite lookup_alter_ne by done. apply Hs.
Qed.

Lemma consistent_failure event :
  Traced (λ s _ s', Consistent s → Consistent s') (errorHandler lib opts event).
Proof.
  intros s Hs.
  destruct (classifiedFailure lib opts event) as [[[el url] d]|] eqn:H.
  - pose proof (errorHandler_collectors event el url d s H) as Hcol.
    destruct (after (errorHandler lib opts event s)) as [store cache].
    cbn in Hcol. subst store. apply consistent_insert; [done|].
    cbn. rewrite length_app. cbn. rewrite (consistent_collectorOf s d Hs). lia.
  - destruct (errorHandler_none event s H) as (store & -> & [->|[d ->]]); cbn.
    + intros d c. cbn. apply Hs.
    + by apply consistent_ensure.
Qed.

(** X7.  If every collector starts with [retryTimes] equal to the length of
    its [failed] list (as in the empty store), every collector still has it
    after any session: the two are only ever changed together, by lines 73-74,
    also when the handler throws afterwards. *)
Theorem retryTimes_counts_failed (ns : list Notification) (s : Session) :
  Consistent s → Consistent (session lib opts ns s).1.
Proof.
  apply (traced_session (λ s _ s', Consistent s → Consistent s')).
  - done.
  - intros s1 _ s2 _ s3 H12 H23 H1. auto.
  - apply consistent_classify.
  - apply consistent_success.
  - by intros p s'.
  - apply consistent_failure.
Qed.

(** ** The ledger *)

(** X8.  Once an element's [hashTarget] is in the Retry Ledger it stays
    there for the rest of the session, and no replace-element reload is made
    for an element with that hash any more, whatever is delivered. *)
Theorem ledger_entries_are_final (ns : list Notification) (s : Session) (h : string) :
  Ledgered h s →
  Ledgered h (session lib opts ns s).1
  ∧ replaceReloads lib h (session lib opts ns s).2 = 0.
Proof.
  intros Hl. pose proof (session_step h ns s) as [_ Hkept Hblocks _ _]. auto.
Qed.

(** ** What is reloaded *)

Lemma classified_not_ignored event el url d :
  classifiedFailure lib opts event = Some (el, url, d) →
  hasAttribute el (ignoreIdentifier lib) = false.
Proof.
  intros (ev & _ & _ & Hurl & _ & _ & _ & _ & Hig & _)%classifiedFailure_inv.
  apply andb_false_iff in Hig as [Hhtml|Hig]; [|done].
  unfold getTargetUrl in Hurl. unfold isHTMLElement in Hhtml.
  by destruct (nodeKind el).
Qed.

Lemma reloadInScope_failure event s :
  forallb (reloadInScope lib) (calls (errorHandler lib opts event s)) = true.
Proof.
  destruct (classifiedFailure lib opts event) as [[[el url] d]|] eqn:H.
  2:{ by destruct (errorHandler_none event s H) as (store & -> & _). }
  destruct (finalAt opts s d) eqn:Hfin.
  { by erewrite errorHandler_final. }
  destruct (truthy_opt (domain opts !! d)) eqn:HF.
  2:{ by erewrite errorHandler_no_fallback. }
  destruct (domain opts !! d) as [F|] eqn:HF'; [|done].
  erewrite errorHandler_retry by done. cbn [preceded calls app].
  pose proof (classified_not_ignored _ _ _ _ H) as Hig.
  pose proof H as (ev & _ & _ & _ & _ & _ & _ & _ & _ & Hrel)%classifiedFailure_inv.
  destruct (onRetry opts _ _ _); try reflexivity.
  destruct (isImage el && truthy (src el)) eqn:Himg.
  { cbn. by rewrite Himg, Hig. }
  destruct (default false _); [reflexivity|]. cbn [calls].
  destruct (isScript el && _ && truthy (src el)) eqn:Hscript.
  { cbn. apply andb_true_iff in Hscript as [[-> ->]%andb_true_iff ->].
    by rewrite Hig. }
  destruct (isLink el && _ && truthy (href el)) eqn:Hlink; [|reflexivity].
  cbn. apply andb_true_iff in Hlink as [[Hl ->]%andb_true_iff ->].
  rewrite Hl in Hrel |- *. cbn in Hrel. by rewrite Hig, Hrel.
Qed.

(** X9.  Over any session, every reload that is made has a target the
    failure handler may retry: [ReloadImage] an image with a source,
    [LoadNextScript] a script with a source, [LoadNextLink] a link with an
    [href] and the [rel] of a stylesheet; none of them carries the ignore
    marker, and a replaced script or link is not marked as hooked. *)
Theorem reloads_stay_in_scope (ns : list Notification) (s : Session) :
  forallb (reloadInScope lib) (session lib opts ns s).2 = true.
Proof.
  apply (traced_session (λ _ cs _, forallb (reloadInScope lib) cs = true)).
  - done.
  - intros _ cs1 _ cs2 _ H1 H2. by rewrite forallb_app, H1, H2.
  - intros url s'. unfold extractInfoFromUrl. by destruct (domain opts !! _).
  - done.
  - done.
  - intros event s'. apply reloadInScope_failure.
Qed.

(** ** Who calls [onSuccess] *)

(** X10.  The start-up scan records successes without reporting them: for
    any document and any state, [processExistingElements] never calls
    [onSuccess], although it appends to [succeeded] lists. *)
Theorem scan_never_calls_onSuccess (doc : Document) (s : Session) :
  List.filter isOnSuccess (calls (processExistingElements lib opts doc s)) = [].
Proof.
  apply (traced_processExistingElements (λ _ cs _, List.filter isOnSuccess cs = [])).
  - done.
  - intros _ cs1 _ cs2 _ H1 H2. by rewrite List.filter_app, H1, H2.
  - intros url s'. unfold extractInfoFromUrl. by destruct (domain opts !! _).
  - done.
  - intros event s'. apply errorHandler_no_OnSuccess.
Qed.

(** X11.  A success notification for a script or an image whose URL is
    classified is trusted as it is (lines 149-152): the URL is appended to
    [succeeded] of its domain, [onSuccess] is called once with the logical
    path, and nothing else changes: no other call, no exception, the same
    [retryCache], the same [retryTimes] and [failed], the same records for
    every other domain.  No attribute of the element is looked at. *)
Theorem success_of_script_or_image_is_trusted (doc : Document) (event : option Event)
        (el : Element) (url F : string) (s : Session) :
  loadable event = Some (el, url) →
  isLink el = false →
  domain opts !! domainOf lib opts url = Some F →
  let d := domainOf lib opts url in
  let r := loadHandler lib opts doc event s in
  calls r = [OnSuccess (srcPathOf lib opts url)]
  ∧ completion r = Normal tt
  ∧ retryCache (after r) = retryCache s
  ∧ collectorOf (after r) d = pushSucceeded url (collectorOf s d)
  ∧ ∀ d', d' ≠ d → collectors (after r) !! d' = collectors s !! d'.
Proof.
  intros Hl Hlink HF d r. subst r.
  erewrite loadHandler_classified by done. rewrite Hlink. cbn [negb].
  fold d. cbn [after calls completion retryCache]. rewrite collectorOf_insert.
  split; [done|]. split; [done|]. split; [done|]. split; [done|].
  intros d' Hne. cbn [collectors]. by rewrite lookup_insert_ne.
Qed.

(** X12.  Where the hosting document has no [styleSheets] API (line 155), a
    success notification for a link is dropped: nothing is called, nothing is
    thrown, [retryCache] is as it was and every domain reads the same
    collector as before, so the load is counted neither as a success nor as a
    failure. *)
Theorem success_of_link_without_styleSheets (doc : Document) (event : option Event)
        (el : Element) (url : string) (s : Session) :
  loadable event = Some (el, url) →
  isLink el = true →
  styleSheets doc = None →
  let r := loadHandler lib opts doc event s in
  calls r = []
  ∧ completion r = Normal tt
  ∧ retryCache (after r) = retryCache s
  ∧ ∀ d, collectorOf (after r) d = collectorOf s d.
Proof.
  intros Hl Hlink Hdoc r. subst r.
  assert (rulesFor doc el = None) as Hrules by (unfold rulesFor; by rewrite Hdoc).
  destruct (domain opts !! domainOf lib opts url) as [F|] eqn:HF.
  - erewrite loadHandler_classified by done. rewrite Hlink, Hrules.
    cbn [negb after calls completion retryCache].
    split; [done|]. split; [done|]. split; [done|].
    intros d. by rewrite collectorOf_ensure.
  - erewrite loadHandler_unclassified by done. by rewrite Hlink, Hrules.
Qed.

(** X13.  A success notification is handled in one of two ways, never both:
    either the success handler is the failure handler on the same event (a
    link whose rule list is readable and empty), or it throws nothing, calls
    at most [onSuccess], once, and leaves [retryCache] and every [retryTimes]
    and [failed] list as they were. *)
Theorem success_handler_records_or_dispatches (doc : Document) (event : option Event)
        (s : Session) :
  let r := loadHandler lib opts doc event s in
  r = errorHandler lib opts event s
  ∨ (completion r = Normal tt
     ∧ (calls r = [] ∨ ∃ p, calls r = [OnSuccess p])
     ∧ retryCache (after r) = retryCache s
     ∧ ∀ d, retryTimes (collectorOf (after r) d) = retryTimes (collectorOf s d)
            ∧ failed (collectorOf (after r) d) = failed (collectorOf s d)).
Proof.
  cbn zeta. destruct (loadable event) as [[el url]|] eqn:Hl.
  2:{ left. rewrite errorHandler_not_loadable by done.
      unfold loadable in Hl. unfold loadHandler.
      destruct event as [ev|]; [|done].
      destruct (eventTarget ev) as [el|]; [|done].
      destruct (getTargetUrl (Some el)) as [url|]; [|done].
      by destruct (truthy url). }
  destruct (domain opts !! domainOf lib opts url) as [F|] eqn:HF.
  - erewrite loadHandler_classified by done.
    assert (∀ d, retryTimes (collectorOf
                   {| collectors :=
                        <[domainOf lib opts url :=
                            pushSucceeded url (collectorOf s (domainOf lib opts url))]>
                          (collectors s);
                      retryCache := retryCache s |} d)
                 = retryTimes (collectorOf s d)
                 ∧ failed (collectorOf
                   {| collectors :=
                        <[domainOf lib opts url :=
                            pushSucceeded url (collectorOf s (domainOf lib opts url))]>
                          (collectors s);
                      retryCache := retryCache s |} d)
                   = failed (collectorOf s d)) as Hsame.
    { intros d. destruct (decide (domainOf lib opts url = d)) as [<-|Hne].
      - by rewrite collectorOf_insert.
      - by rewrite collectorOf_insert_ne. }
    destruct (negb (isLink el)).
    { right. cbn. split; [done|]. split; [by eauto|]. done. }
    destruct (rulesFor doc el) as [rules|].
    + destruct (Nat.eqb (length rules) 0); [by left|].
      right. cbn. split; [done|]. split; [by eauto|]. done.
    + right. cbn. split; [done|]. split; [by left|]. split; [done|].
      intros d. by rewrite collectorOf_ensure.
  - erewrite loadHandler_unclassified by done.
    destruct (negb (isLink el)).
    { right. cbn. split; [done|]. split; [by eauto|]. done. }
    destruct (rulesFor doc el) as [rules|].
    + destruct (Nat.eqb (length rules) 0).
      * left. symmetry. by eapply errorHandler_unclassified.
      * right. cbn. split; [done|]. split; [by eauto|]. done.
    + right. cbn. split; [done|]. split; [by left|]. done.
Qed.

(** ** What a failure leaves alone *)

(** X14.  A classified failure of the domain [d], however it ends (final,
    no fallback, veto, reload or exception), changes the store at the record
    of [d] only, and there only [retryTimes] and [failed]: the records of the
    other domains and the [succeeded] list of [d] are as they were.  The
    ledger gains at most the hash of the event's own target, and nothing when
    the target is an image. *)
Theorem failure_touches_only_its_own_records (event : option Event) (el : Element)
        (url d : string) (s : Session) :
  classifiedFailure lib opts event = Some (el, url, d) →
  let r := errorHandler lib opts event s in
  (∀ d', d' ≠ d → collectors (after r) !! d' = collectors s !! d')
  ∧ succeeded (collectorOf (after r) d) = succeeded (collectorOf s d)
  ∧ (retryCache (after r) = retryCache s
     ∨ retryCache (after r) = <[hashTarget lib el := true]> (retryCache s))
  ∧ (isImage el = true → retryCache (after r) = retryCache s).
Proof.
  intros H r. subst r. split; [|split].
  - intros d' Hne. erewrite errorHandler_collectors by done.
    by rewrite lookup_insert_ne.
  - apply errorHandler_succeeded.
  - destruct (finalAt opts s d) eqn:Hfin.
    { erewrite errorHandler_final by done. cbn. by split; [left|]. }
    destruct (truthy_opt (domain opts !! d)) eqn:HF.
    2:{ erewrite errorHandler_no_fallback by done. cbn. by split; [left|]. }
    destruct (domain opts !! d) as [F|] eqn:HF'; [|done].
    erewrite errorHandler_retry by done. cbn [preceded after].
    destruct (onRetry opts _ _ _); cbn; try (by split; [left|]).
    destruct (isImage el && truthy (src el)) eqn:Himg; cbn;
      [by split; [left|]|].
    destruct (default false _); cbn; [by split; [left|]|].
    split; [by right|]. intros Hi.
    by rewrite (classified_image _ _ _ _ H Hi) in Himg.
Qed.

(** ** Exceptions *)

Section Exceptions.

Context (E : string → Prop).
Hypothesis E_failure : ∀ event, ThrowsWithin E (errorHandler lib opts event).

Lemma throws_ret {A} (a : A) : ThrowsWithin E (js_ret a).
Proof. by intros s0. Qed.

Lemma throws_bind {A B} (m : Js A) (k : A → Js B) :
  ThrowsWithin E m → (∀ a, ThrowsWithin E (k a)) → ThrowsWithin E (js_bind m k).
Proof.
  intros Hm Hk s. unfold js_bind. specialize (Hm s).
  destruct (m s) as [s1 cs1 [a|msg]]; cbn in *; [|done]. apply Hk.
Qed.

Lemma throws_forEach {A} (f : A → Js unit) (xs : list A) :
  (∀ x, ThrowsWithin E (f x)) → ThrowsWithin E (forEach f xs).
Proof.
  intros Hf. induction xs as [|x xs IH]; cbn.
  - apply throws_ret.
  - apply throws_bind; [apply Hf|]. by intros _.
Qed.

Lemma throws_classify url : ThrowsWithin E (extractInfoFromUrl lib url (domain opts)).
Proof. intros s. unfold extractInfoFromUrl. by destruct (domain opts !! _). Qed.

Lemma throws_loadHandler doc event : ThrowsWithin E (loadHandler lib opts doc event).
Proof.
  unfold loadHandler. destruct event as [ev|]; [|apply throws_ret].
  destruct (eventTarget ev) as [el|]; [|apply throws_ret].
  destruct (getTargetUrl (Some el)) as [url|]; [|apply throws_ret].
  destruct (negb (truthy url)); [apply throws_ret|].
  apply throws_bind; [apply throws_classify|]. intros [dom col].
  assert (ThrowsWithin E
            (js_bind
               match (dom, col).2 with
               | Some ref => modifyCollector ref (pushSucceeded url)
               | None => js_ret ()
               end
               (λ _, emit (OnSuccess (splitUrl lib url (domain opts)).1))))
    as Hsucc.
  { apply throws_bind; [|by intros _ s0].
    cbn. destruct col; [by intros s0|apply throws_ret]. }
  destruct (negb (isLink el)); [exact Hsucc|].
  destruct (styleSheets doc) as [sheets|]; [|apply throws_ret].
  destruct (getCssRules _) as [rules|]; [|apply throws_ret].
  destruct (Nat.eqb (length rules) 0); [apply E_failure|exact Hsucc].
Qed.

Lemma throws_processExistingElements doc :
  ThrowsWithin E (processExistingElements lib opts doc).
Proof.
  unfold processExistingElements.
  apply throws_bind; [apply throws_forEach|intros _; apply throws_bind;
                      [apply throws_forEach|intros _; apply throws_forEach]].
  - intros element. unfold scanScript.
    destruct (getTargetUrl (Some element)) as [url|]; [|apply throws_ret].
    destruct (negb (truthy url)); [apply throws_ret|].
    apply throws_bind; [apply throws_classify|]. intros [[d|] [c|]];
      try apply throws_ret.
    destruct (negb (truthy d)); [apply throws_ret|]. by intros s0.
  - intros element. unfold scanLink.
    destruct (getTargetUrl (Some element)) as [url|]; [|apply throws_ret].
    destruct (negb (truthy url) || _); [apply throws_ret|].
    apply throws_bind; [apply throws_classify|]. intros [[d|] [c|]];
      try apply throws_ret.
    destruct (negb (truthy d)); [apply throws_ret|].
    destruct (hasAttribute _ _); [apply throws_ret|].
    destruct (styleSheets doc) as [sheets|]; [|apply throws_ret].
    destruct (List.find _ sheets) as [sheet|]; [|apply E_failure].
    destruct (getCssRules _) as [rules|]; [|apply E_failure].
    destruct (Nat.eqb (length rules) 0); [apply E_failure|]. by intros s0.
  - intros element. unfold scanImage.
    destruct (getTargetUrl (Some element)) as [url|]; [|apply throws_ret].
    destruct (negb (truthy url)); [apply throws_ret|].
    apply throws_bind; [apply throws_classify|]. intros [[d|] [c|]];
      try apply throws_ret.
    destruct (negb (truthy d)); [apply throws_ret|].
    destruct (hasAttribute _ _); [apply throws_ret|].
    destruct (complete element && _); [apply E_failure|].
    destruct (complete element); [by intros s0|apply throws_ret].
Qed.

Lemma throws_deliver n : ThrowsWithin E (deliver lib opts n).
Proof.
  destruct n; cbn.
  - apply E_failure.
  - apply throws_loadHandler.
  - apply throws_processExistingElements.
Qed.

End Exceptions.

Lemma errorHandler_throws (E : string → Prop) event :
  (∀ newUrl url c,
      match onRetry opts newUrl url c with
      | JNull | JString _ => True
      | _ => E "a string should be returned in `onRetry` function"
      end) →
  ThrowsWithin E (errorHandler lib opts event).
Proof.
  intros Hhook s.
  destruct (classifiedFailure lib opts event) as [[[el url] d]|] eqn:H.
  2:{ by destruct (errorHandler_none event s H) as (store & -> & _). }
  destruct (finalAt opts s d) eqn:Hfin.
  { by erewrite errorHandler_final. }
  destruct (truthy_opt (domain opts !! d)) eqn:HF.
  2:{ by erewrite errorHandler_no_fallback. }
  destruct (domain opts !! d) as [F|] eqn:HF'; [|done].
  erewrite errorHandler_retry by done. cbn [preceded completion].
  specialize (Hhook (stringReplace url d F) url (recordedFailure s d url)).
  destruct (onRetry opts _ _ _); try done.
  destruct (isImage el && truthy (src el)); [done|].
  by destruct (default false _).
Qed.


(** ** How often [onRetry] is asked *)

Lemma retriesOf_app d cs cs' :
  retriesOf lib opts d (cs ++ cs')
  = retriesOf lib opts d cs + retriesOf lib opts d cs'.
Proof. unfold retriesOf. by rewrite List.filter_app, length_app. Qed.

Lemma retries_failure d event s :
  retriesOf lib opts d (calls (errorHandler lib opts event s))
  + Nat.min (retryTimes (collectorOf s d)) (Z.to_nat (maxRetryCount opts))
  ≤ Nat.min (retryTimes (collectorOf (after (errorHandler lib opts event s)) d))
            (Z.to_nat (maxRetryCount opts)).
Proof.
  pose proof (errorHandler_retryTimes event s d) as Hrt.
  unfold failureOf in Hrt.
  destruct (classifiedFailure lib opts event) as [[[el url] d']|] eqn:H.
  2:{ destruct (errorHandler_none event s H) as (store & Hrun & _).
      rewrite Hrun in Hrt |- *. cbn [calls after] in *. unfold retriesOf.
      cbn [List.filter length]. lia. }
  assert (retriesOf lib opts d (calls (errorHandler lib opts event s))
          ≤ (if finalAt opts s d' then 0 else if String.eqb d' d then 1 else 0))
    as Hcount.
  { pose proof H as (ev & _ & _ & _ & _ & Hdom & _)%classifiedFailure_inv.
    destruct (finalAt opts s d') eqn:Hfin.
    { by erewrite errorHandler_final. }
    destruct (truthy_opt (domain opts !! d')) eqn:HF.
    2:{ erewrite errorHandler_no_fallback by done. unfold retriesOf. cbn. lia. }
    destruct (domain opts !! d') as [F|] eqn:HF'; [|done].
    erewrite errorHandler_retry by done. cbn [preceded calls app].
    assert (∀ rest, List.filter isOnRetry rest = [] →
                    retriesOf lib opts d
                      (OnRetry (stringReplace url d' F) url (recordedFailure s d' url)
                         :: rest)
                    = if String.eqb d' d then 1 else 0) as Hhead.
    { intros rest Hrest. unfold retriesOf. cbn [List.filter isRetryOf].
      fold (domainOf lib opts url) in Hdom. rewrite <- Hdom.
      assert (List.filter (isRetryOf lib opts d) rest = []) as ->.
      { induction rest as [|c rest IH]; [done|]. cbn in *.
        destruct c; cbn in *; try (by apply IH). discriminate. }
      destruct (String.eqb_spec d' d) as [->|Hne].
      - by rewrite bool_decide_eq_true_2.
      - by rewrite bool_decide_eq_false_2. }
    rewrite Hhead; [done|].
    destruct (onRetry opts _ _ _); try reflexivity.
    destruct (isImage el && truthy (src el)); [reflexivity|].
    destruct (default false _); [reflexivity|]. cbn [calls].
    destruct (isScript el && _ && _); [reflexivity|].
    destruct (isLink el && _ && _); reflexivity. }
  destruct (finalAt opts s d') eqn:Hfin; [lia|].
  destruct (String.eqb_spec d' d) as [->|Hne]; [|lia].
  unfold finalAt in Hfin. rewrite Z.gtb_ltb in Hfin. apply Z.ltb_ge in Hfin.
  lia.
Qed.

(** X16.  Over any session, the number of [onRetry] calls made for URLs of
    one domain is at most [maxRetryCount] less the retries the domain's
    collector had already counted at the start: a domain that starts at 0 is
    retried at most [maxRetryCount] times, whatever fails and however often. *)
Theorem retries_per_domain_are_bounded (ns : list Notification) (s : Session)
        (d : string) :
  retriesOf lib opts d (session lib opts ns s).2
  ≤ Z.to_nat (maxRetryCount opts) - retryTimes (collectorOf s d).
Proof.
  pose proof
    (traced_session
       (λ s cs s',
          retriesOf lib opts d cs
          + Nat.min (retryTimes (collectorOf s d)) (Z.to_nat (maxRetryCount opts))
          ≤ Nat.min (retryTimes (collectorOf s' d)) (Z.to_nat (maxRetryCount opts))))
    as Hsession.
  cbn beta in Hsession. specialize (Hsession ltac:(intros; unfold retriesOf; cbn; lia)).
  specialize (Hsession
                ltac:(intros s1 cs1 s2 cs2 s3 H1 H2; rewrite retriesOf_app; lia)).
  assert (∀ url, Traced
            (λ s cs s',
               retriesOf lib opts d cs
               + Nat.min (retryTimes (collectorOf s d)) (Z.to_nat (maxRetryCount opts))
               ≤ Nat.min (retryTimes (collectorOf s' d)) (Z.to_nat (maxRetryCount opts)))
            (extractInfoFromUrl lib url (domain opts))) as Hclassify.
  { intros url s'. unfold extractInfoFromUrl.
    destruct (domain opts !! _); cbn [calls after]; unfold retriesOf; cbn [List.filter length].
    - rewrite collectorOf_ensure. unfold collectorOf. lia.
    - lia. }
  assert (∀ ref url, Traced
            (λ s cs s',
               retriesOf lib opts d cs
               + Nat.min (retryTimes (collectorOf s d)) (Z.to_nat (maxRetryCount opts))
               ≤ Nat.min (retryTimes (collectorOf s' d)) (Z.to_nat (maxRetryCount opts)))
            (modifyCollector ref (pushSucceeded url))) as Hrecord.
  { intros ref url s'. cbn [calls after modifyCollector]. unfold retriesOf.
    cbn [List.filter length].
    enough (retryTimes (collectorOf s' d)
            = retryTimes (collectorOf
                            {| collectors := alter (pushSucceeded url) ref (collectors s');
                               retryCache := retryCache s' |} d)) as <- by lia.
    unfold collectorOf. cbn [collectors].
    destruct (decide (ref = d)) as [->|Hne].
    - rewrite lookup_alter_eq. by destruct (collectors s' !! d).
    - by rewrite lookup_alter_ne. }
  specialize (Hsession Hclassify Hrecord
                ltac:(intros p s'; unfold retriesOf; cbn; lia)
                ltac:(intros event s'; apply retries_failure)
                ns s).
  lia.
Qed.

(** ** What [onRetry] is handed *)

Lemma retryWithinThreshold_failure event s :
  forallb (retryWithinThreshold opts) (calls (errorHandler lib opts event s)) = true.
Proof.
  destruct (classifiedFailure lib opts event) as [[[el url] d]|] eqn:H.
  2:{ by destruct (errorHandler_none event s H) as (store & -> & _). }
  destruct (finalAt opts s d) eqn:Hfin.
  { by erewrite errorHandler_final. }
  destruct (truthy_opt (domain opts !! d)) eqn:HF.
  2:{ by erewrite errorHandler_no_fallback. }
  destruct (domain opts !! d) as [F|] eqn:HF'; [|done].
  erewrite errorHandler_retry by done. cbn [preceded calls app forallb].
  apply andb_true_iff. split.
  - unfold retryWithinThreshold. cbn [recordedFailure retryTimes failed pushFailed
                                        incrRetryTimes].
    rewrite last_snoc, bool_decide_eq_true_2 by done.
    unfold finalAt in Hfin. rewrite Z.gtb_ltb in Hfin. apply Z.ltb_ge in Hfin.
    apply Z.leb_le in Hfin. by rewrite Hfin.
  - destruct (onRetry opts _ _ _); try reflexivity.
    destruct (isImage el && truthy (src el)); [reflexivity|].
    destruct (default false _); [reflexivity|]. cbn [calls].
    destruct (isScript el && _ && _); [reflexivity|].
    destruct (isLink el && _ && _); reflexivity.
Qed.

(** X17.  Over any session, every [onRetry] call is made within the
    threshold and after the failure has been recorded: the collector it is
    handed has [retryTimes] between 1 and [maxRetryCount], and the original
    URL it is asked about is the last entry of that collector's [failed]
    list. *)
Theorem onRetry_sees_the_recorded_failure (ns : list Notification) (s : Session) :
  forallb (retryWithinThreshold opts) (session lib opts ns s).2 = true.
Proof.
  apply (traced_session (λ _ cs _, forallb (retryWithinThreshold opts) cs = true)).
  - done.
  - intros _ cs1 _ cs2 _ H1 H2. by rewrite forallb_app, H1, H2.
  - intros url s'. unfold extractInfoFromUrl. by destruct (domain opts !! _).
  - done.
  - done.
  - intros event s'. apply retryWithinThreshold_failure.
Qed.

(** ** Hooked elements *)

(** X18.  The ledger entry is written before the hooked marker is looked at
    (lines 106-111): for a script or a link that carries the hooked marker
    and is not ledgered yet, a retry that [onRetry] answers with a string
    calls [onRetry] and nothing else, no element is replaced, and the
    element's hash is in the ledger afterwards. *)
Theorem hooked_element_is_ledgered_not_replaced (event : option Event)
        (el : Element) (url d F userUrl : string) (s : Session) :
  classifiedFailure lib opts event = Some (el, url, d) →
  isImage el = false →
  truthy_opt (getAttribute el (hookedIdentifier lib)) = true →
  default false (retryCache s !! hashTarget lib el) = false →
  finalAt opts s d = false →
  domain opts !! d = Some F →
  truthy F = true →
  onRetry opts (stringReplace url d F) url (recordedFailure s d url)
  = JString userUrl →
  let r := errorHandler lib opts event s in
  calls r = [OnRetry (stringReplace url d F) url (recordedFailure s d url)]
  ∧ completion r = Normal tt
  ∧ retryCache (after r) = <[hashTarget lib el := true]> (retryCache s).
Proof.
  intros H Himg Hhooked Hmiss Hfin HF Htr Hret r. subst r.
  erewrite errorHandler_retry by done.
  rewrite Hret, Himg, Hmiss, Hhooked. cbn [andb negb].
  by rewrite !andb_false_r.
Qed.

End Proofs.

(** * The configuration of the specification's scenarios *)

(** ** Elements that carry the ignore marker *)

(** C2.  The ignore marker is honoured by the failure handler and by the
    stylesheet and image branches of the start-up scan, but not everywhere:
    for an ignore-marked script with a classified URL, the success handler
    appends the URL to [succeeded] and calls [onSuccess], and the script
    branch of the start-up scan appends the URL to [succeeded]. *)
Theorem C2_ignore_marker_is_not_checked_on_success :
  let el := Sample.script Sample.xjs Sample.ignored in
  let doc := Sample.docWith None [el] in
  let loaded := loadHandler Sample.lib Sample.opts doc (Sample.on el) Sample.fresh in
  let scanned := processExistingElements Sample.lib Sample.opts doc Sample.fresh in
  hasAttribute el (ignoreIdentifier Sample.lib) = true
  ∧ calls (errorHandler Sample.lib Sample.opts (Sample.on el) Sample.fresh) = []
  ∧ calls loaded = [OnSuccess "/x.js"]
  ∧ succeeded (collectorOf (after loaded) "a.com") = [Sample.xjs]
  ∧ succeeded (collectorOf (after scanned) "a.com") = [Sample.xjs].
Proof. vm_compute. repeat split. Qed.

(** The two sibling branches of the scan do skip an ignore-marked element. *)
Example scan_skips_ignored_link_and_image :
  let link := Sample.stylesheet Sample.xcss Sample.ignored in
  let img := Sample.image Sample.ipng Sample.ignored in
  let doc := Sample.docWith (Some ["body{}"]) [link; img] in
  let scanned := processExistingElements Sample.lib Sample.opts doc Sample.fresh in
  calls scanned = []
  ∧ collectorOf (after scanned) "a.com" = emptyCollector.
Proof. vm_compute. repeat split. Qed.

(** ** Unclassified URLs *)

(** The success handler calls [onSuccess] for a script whose domain is not a
    key of the Domain Map. *)
Lemma C1_success_of_unclassified_script_calls_onSuccess :
  let el := Sample.script "http://c.com/x.js" ∅ in
  let r := loadHandler Sample.lib Sample.opts (Sample.docWith None [])
             (Sample.on el) Sample.fresh in
  loadable (Sample.on el) = Some (el, "http://c.com/x.js")
  ∧ domain Sample.opts !! domainOf Sample.lib Sample.opts "http://c.com/x.js" = None
  ∧ calls r = [OnSuccess ""]
  ∧ List.filter isOnSuccess (calls r) ≠ [].
Proof. vm_compute. repeat split. discriminate. Qed.

Lemma C1_unclassified_url_witness :
  let el := Sample.script "http://c.com/x.js" ∅ in
  let doc := Sample.docWith None [] in
  errorHandler Sample.lib Sample.opts (Sample.on el) Sample.fresh
  = {| after := Sample.fresh; calls := []; completion := Normal tt |}
  ∧ after (loadHandler Sample.lib Sample.opts doc (Sample.on el) Sample.fresh)
    = Sample.fresh.
Proof.
  intros el doc.
  destruct (C1_unclassified_url Sample.lib Sample.opts doc (Sample.on el) el
              "http://c.com/x.js" Sample.fresh)
    as (Herr & Hafter & _).
  - reflexivity.
  - vm_compute. reflexivity.
  - exact (conj Herr Hafter).
Defined.

(** ** Out-of-scope failures *)

Lemma C9_out_of_scope_witness :
  let el := Sample.script Sample.xjs Sample.ignored in
  let r := errorHandler Sample.lib Sample.opts (Sample.on el) Sample.fresh in
  calls r = []
  ∧ completion r = Normal tt
  ∧ retryCache (after r) = retryCache Sample.fresh
  ∧ collectorOf (after r) "a.com" = collectorOf Sample.fresh "a.com".
Proof.
  intros el.
  destruct (C9_out_of_scope_failure_changes_nothing Sample.lib Sample.opts
              (Sample.on el) Sample.fresh)
    as (Hcalls & Hdone & Hcache & _ & Hsame).
  - apply oos_ignored with el.
    + reflexivity.
    + vm_compute. reflexivity.
  - exact (conj Hcalls (conj Hdone (conj Hcache (Hsame "a.com")))).
Defined.

(** ** The threshold *)

(** With [maxRetryCount = 1]: after one classified failure of "a.com" (and an
    out-of-scope one), the next is the second and calls [onFail]. *)
Lemma C3_threshold_witness :
  let el := Sample.script Sample.xjs ∅ in
  let evs := [Sample.on el; Sample.on (Sample.script Sample.xjs Sample.ignored)] in
  let s' := (session Sample.lib Sample.opts (map LoadFailure evs) Sample.fresh).1 in
  let r := errorHandler Sample.lib Sample.opts (Sample.on el) s' in
  retryTimes (collectorOf s' "a.com") = 1
  ∧ retryTimes (collectorOf (after r) "a.com") = 2
  ∧ List.filter isOnFail (calls r) = [OnFail "/x.js"].
Proof.
  intros el evs.
  apply (C3_threshold_boundary Sample.lib Sample.opts "a.com" evs (Sample.on el)
           el Sample.xjs Sample.fresh).
  - reflexivity.
  - vm_compute. reflexivity.
Defined.

(** ** Stylesheet successes *)

Lemma C5_stylesheet_success_witness :
  let el := Sample.stylesheet Sample.xcss ∅ in
  let doc := Sample.docWith (Some []) [el] in
  let r := loadHandler Sample.lib Sample.opts doc (Sample.on el) Sample.fresh in
  r = errorHandler Sample.lib Sample.opts (Sample.on el) Sample.fresh
  ∧ List.filter isOnSuccess (calls r) = []
  ∧ retryTimes (collectorOf (after r) "a.com") = 1
  ∧ failed (collectorOf (after r) "a.com") = [Sample.xcss].
Proof.
  intros el doc.
  destruct (C5_stylesheet_success_is_verified Sample.lib Sample.opts doc
              (Sample.on el) el Sample.xcss "b.com"
              [ {| sheetHref := Some Sample.xcss; sheetRules := Some [] |} ]
              {| sheetHref := Some Sample.xcss; sheetRules := Some [] |}
              Sample.fresh)
    as (Hsame & Hnone & _ & Hrec).
  - reflexivity.
  - reflexivity.
  - vm_compute. reflexivity.
  - reflexivity.
  - vm_compute. reflexivity.
  - destruct Hrec as [Htimes Hfailed]; [vm_compute; reflexivity|].
    exact (conj Hsame (conj Hnone (conj Htimes Hfailed))).
Defined.

(** ** Terminal failures *)

Lemma C6_terminal_failure_witness :
  let el := Sample.script Sample.xjs ∅ in
  let once := after (errorHandler Sample.lib Sample.opts (Sample.on el) Sample.fresh) in
  finalAt Sample.opts once "a.com" = true
  ∧ calls (errorHandler Sample.lib Sample.opts (Sample.on el) once) = [OnFail "/x.js"].
Proof.
  intros el once.
  destruct (C6_terminal_failure Sample.lib Sample.opts (Sample.on el) el
              Sample.xjs "a.com" once) as [Hfinal _].
  - vm_compute. reflexivity.
  - split; [vm_compute; reflexivity|].
    apply Hfinal. vm_compute. reflexivity.
Defined.

(** ** The [onRetry] hook *)

Lemma C7_onRetry_witness :
  let el := Sample.script Sample.xjs ∅ in
  let r := errorHandler Sample.lib Sample.opts (Sample.on el) Sample.fresh in
  completion r = Normal tt
  ∧ calls r
    = [OnRetry "http://b.com/x.js" Sample.xjs
         {| retryTimes := 1; failed := [Sample.xjs]; succeeded := [] |};
       LoadNextScript el "http://b.com/x.js"].
Proof.
  intros el.
  pose proof (C7_onRetry_is_authoritative Sample.lib Sample.opts (Sample.on el) el
                Sample.xjs "a.com" "b.com" Sample.fresh) as H.
  cbn zeta in H. destruct H as (Hdone & _ & _ & Hscript & _).
  - vm_compute. reflexivity.
  - reflexivity.
  - reflexivity.
  - reflexivity.
  - split; [exact Hdone|]. apply Hscript; reflexivity.
Defined.

(** A hook that returns a number. *)
Lemma C10_exception_witness :
  let el := Sample.script Sample.xjs ∅ in
  let o := Sample.optsWith (λ _ _ _, JNumber 42) 1 in
  let r := errorHandler Sample.lib o (Sample.on el) Sample.fresh in
  completion r = Thrown "a string should be returned in `onRetry` function"
  ∧ retryTimes (collectorOf (after r) "a.com") = 1
  ∧ failed (collectorOf (after r) "a.com") = [Sample.xjs].
Proof.
  intros el o.
  destruct (C10_exception_keeps_the_recorded_failure Sample.lib o (Sample.on el) el
              Sample.xjs "a.com" "b.com" Sample.fresh)
    as (Hthrown & Htimes & Hfailed & _).
  - vm_compute. reflexivity.
  - reflexivity.
  - reflexivity.
  - reflexivity.
  - discriminate.
  - discriminate.
  - exact (conj Hthrown (conj Htimes Hfailed)).
Defined.

(** ** The first failure of a domain *)

(** With [maxRetryCount = 0] the first classified failure is already final:
    [onFail] is called and [onRetry] is not. *)
Lemma C8_first_failure_with_zero_threshold :
  let el := Sample.script Sample.xjs ∅ in
  let o := Sample.optsWith (λ newUrl _ _, JString newUrl) 0 in
  let r := errorHandler Sample.lib o (Sample.on el) Sample.fresh in
  classifiedFailure Sample.lib o (Sample.on el) = Some (el, Sample.xjs, "a.com")
  ∧ domain o !! "a.com" = Some "b.com"
  ∧ retryTimes (collectorOf Sample.fresh "a.com") = 0
  ∧ calls r = [OnFail "/x.js"]
  ∧ List.filter isOnRetry (calls r) = [].
Proof. vm_compute. repeat split. Qed.

Lemma C8_first_failure_witness :
  let el := Sample.script Sample.xjs ∅ in
  let r := errorHandler Sample.lib Sample.opts (Sample.on el) Sample.fresh in
  ∃ c rest,
    calls r = OnRetry "http://b.com/x.js" Sample.xjs c :: rest
    ∧ List.filter isOnRetry rest = []
    ∧ retryTimes c = 1.
Proof.
  intros el.
  destruct (C8_first_failure_calls_onRetry_once Sample.lib Sample.opts
              (Sample.on el) el Sample.xjs "a.com" "b.com" Sample.fresh)
    as (c & rest & Hcalls & Hrest & _ & Hone & _).
  - vm_compute. reflexivity.
  - reflexivity.
  - reflexivity.
  - reflexivity.
  - reflexivity.
  - exists c, rest. exact (conj Hcalls (conj Hrest Hone)).
Defined.

(** ** Images *)

(** An image failure that is not final and not vetoed, and yet reloads
    nothing: the Domain Map has no domain to switch to, or the hook returns
    something that is not a string. *)
Lemma C4_image_failure_without_reload :
  let el := Sample.image Sample.ipng ∅ in
  let number := Sample.optsWith (λ _ _ _, JNumber 42) 1 in
  let r := errorHandler Sample.lib Sample.optsNoFallback (Sample.on el) Sample.fresh in
  let r' := errorHandler Sample.lib number (Sample.on el) Sample.fresh in
  (classifiedFailure Sample.lib Sample.optsNoFallback (Sample.on el)
   = Some (el, Sample.ipng, "a.com")
   ∧ finalAt Sample.optsNoFallback Sample.fresh "a.com" = false
   ∧ List.filter isOnRetry (calls r) = []
   ∧ List.filter isReload (calls r) = [])
  ∧ (classifiedFailure Sample.lib number (Sample.on el)
     = Some (el, Sample.ipng, "a.com")
     ∧ finalAt number Sample.fresh "a.com" = false
     ∧ onRetry number "http://b.com/i.png" Sample.ipng
         (recordedFailure Sample.fresh "a.com" Sample.ipng) ≠ JNull
     ∧ List.filter isReload (calls r') = []).
Proof. vm_compute. repeat split. discriminate. Qed.

Lemma C4_image_reload_witness :
  let el := Sample.image Sample.ipng ∅ in
  let ledgered :=
    {| collectors := ∅;
       retryCache := {[ hashTarget Sample.lib el := true ]} |} in
  calls (errorHandler Sample.lib Sample.opts (Sample.on el) ledgered)
  = [OnRetry "http://b.com/i.png" Sample.ipng
       {| retryTimes := 1; failed := [Sample.ipng]; succeeded := [] |};
     ReloadImage el "http://b.com/i.png"]
  ∧ replaceReloads Sample.lib (hashTarget Sample.lib el)
      (session Sample.lib Sample.opts
         [LoadFailure (Sample.on el); LoadFailure (Sample.on el)] ledgered).2 ≤ 1.
Proof.
  intros el ledgered.
  destruct (C4_one_replace_reload_per_element Sample.lib Sample.opts)
    as [Honce Himage].
  split.
  - apply (Himage (Sample.on el) el Sample.ipng "a.com" "b.com"
             "http://b.com/i.png" ledgered).
    + vm_compute. reflexivity.
    + reflexivity.
    + reflexivity.
    + reflexivity.
    + reflexivity.
    + reflexivity.
  - apply Honce.
Defined.

(** ** The scenarios of the specification *)

(** A script fails twice with [maxRetryCount = 1]: one replace reload, then
    [onFail]. *)
Example scenario_script_fails_twice :
  let el := Sample.script Sample.xjs ∅ in
  (session Sample.lib Sample.opts
     [LoadFailure (Sample.on el); LoadFailure (Sample.on el)] Sample.fresh).2
  = [OnRetry "http://b.com/x.js" Sample.xjs
       {| retryTimes := 1; failed := [Sample.xjs]; succeeded := [] |};
     LoadNextScript el "http://b.com/x.js";
     OnFail "/x.js"].
Proof. vm_compute. reflexivity. Qed.

(** An image fails twice with [maxRetryCount = 2]: two reloads, and [failed]
    has two entries. *)
Example scenario_image_fails_twice :
  let el := Sample.image Sample.ipng ∅ in
  let o := Sample.optsWith (λ newUrl _ _, JString newUrl) 2 in
  let run := session Sample.lib o
               [LoadFailure (Sample.on el); LoadFailure (Sample.on el)] Sample.fresh in
  List.filter isReload run.2
  = [ReloadImage el "http://b.com/i.png"; ReloadImage el "http://b.com/i.png"]
  ∧ length (failed (collectorOf run.1 "a.com")) = 2.
Proof. vm_compute. repeat split. Qed.

Example stringReplace_examples :
  stringReplace "http://a.com/a.com/x" "a.com" "b.com" = "http://b.com/a.com/x"
  ∧ stringReplace "abc" "d" "x" = "abc"
  ∧ stringReplace "abc" "" "x" = "xabc".
Proof. vm_compute. repeat split. Qed.

(** * The further properties on the configuration of the scenarios *)

(** A stylesheet whose sheet has one rule is recorded by the scan. *)
Lemma scan_of_a_stylesheet_witness :
  let el := Sample.stylesheet Sample.xcss ∅ in
  let doc := Sample.docWith (Some ["body{}"]) [el] in
  let r := scanLink Sample.lib Sample.opts doc el Sample.fresh in
  calls r = []
  ∧ completion r = Normal tt
  ∧ collectorOf (after r) "a.com"
    = {| retryTimes := 0; failed := []; succeeded := [Sample.xcss] |}.
Proof.
  intros el doc.
  pose proof (scan_of_a_stylesheet Sample.lib Sample.opts doc
                [ {| sheetHref := Some Sample.xcss; sheetRules := Some ["body{}"] |} ]
                el Sample.xcss "a.com" Sample.fresh
                ltac:(vm_compute; reflexivity) ltac:(reflexivity) ltac:(reflexivity))
    as H.
  vm_compute in H. destruct H as (Hcalls & Hdone & _ & Hcol & _).
  vm_compute. exact (conj Hcalls (conj Hdone Hcol)).
Defined.

(** A complete image without natural size is handed to the failure handler. *)
Lemma scan_of_an_image_witness :
  let el := Sample.image Sample.ipng ∅ in
  scanImage Sample.lib Sample.opts el Sample.fresh
  = errorHandler Sample.lib Sample.opts (syntheticEvent el) Sample.fresh.
Proof.
  intros el.
  destruct (scan_of_an_image Sample.lib Sample.opts el Sample.ipng "a.com"
              Sample.fresh ltac:(vm_compute; reflexivity)) as (Hbroken & _).
  apply Hbroken; [reflexivity|left; reflexivity].
Defined.

Lemma scan_skips_ignored_witness :
  let link := Sample.stylesheet Sample.xcss Sample.ignored in
  let img := Sample.image Sample.ipng Sample.ignored in
  let doc := Sample.docWith None [link; img] in
  calls (scanLink Sample.lib Sample.opts doc link Sample.fresh) = []
  ∧ calls (scanImage Sample.lib Sample.opts img Sample.fresh) = [].
Proof.
  intros link img doc. split.
  - exact (proj1 (proj1 (scan_skips_ignored_links_and_images Sample.lib Sample.opts
                           doc link Sample.fresh ltac:(vm_compute; reflexivity)))).
  - exact (proj1 (proj2 (scan_skips_ignored_links_and_images Sample.lib Sample.opts
                           doc img Sample.fresh ltac:(vm_compute; reflexivity)))).
Defined.

Lemma retryTimes_counts_failed_witness :
  let el := Sample.script Sample.xjs ∅ in
  Consistent
    (session Sample.lib Sample.opts
       [LoadFailure (Sample.on el); LoadSuccess (Sample.docWith None []) (Sample.on el);
        LoadFailure (Sample.on el)]
       Sample.fresh).1.
Proof.
  intros el. apply retryTimes_counts_failed.
  intros d c. unfold Sample.fresh. cbn [collectors].
  rewrite lookup_empty. discriminate.
Defined.

Lemma ledger_entries_are_final_witness :
  let el := Sample.script Sample.xjs ∅ in
  let h := hashTarget Sample.lib el in
  let ledgered := {| collectors := ∅; retryCache := {[ h := true ]} |} in
  let run := session Sample.lib Sample.opts
               [LoadFailure (Sample.on el); StartupScan (Sample.docWith None [el])]
               ledgered in
  Ledgered h run.1 ∧ replaceReloads Sample.lib h run.2 = 0.
Proof.
  intros el h ledgered run.
  apply (ledger_entries_are_final Sample.lib Sample.opts _ ledgered h).
  vm_compute. reflexivity.
Defined.

Lemma success_of_script_witness :
  let el := Sample.script Sample.xjs ∅ in
  let r := loadHandler Sample.lib Sample.opts (Sample.docWith None [])
             (Sample.on el) Sample.fresh in
  calls r = [OnSuccess "/x.js"]
  ∧ completion r = Normal tt
  ∧ collectorOf (after r) "a.com"
    = {| retryTimes := 0; failed := []; succeeded := [Sample.xjs] |}.
Proof.
  intros el.
  pose proof (success_of_script_or_image_is_trusted Sample.lib Sample.opts
                (Sample.docWith None []) (Sample.on el) el Sample.xjs "b.com"
                Sample.fresh
                ltac:(reflexivity) ltac:(reflexivity) ltac:(vm_compute; reflexivity))
    as H.
  vm_compute in H. destruct H as (Hcalls & Hdone & _ & Hcol & _).
  vm_compute. exact (conj Hcalls (conj Hdone Hcol)).
Defined.

Lemma success_of_link_without_styleSheets_witness :
  let el := Sample.stylesheet Sample.xcss ∅ in
  let doc := {| styleSheets := None; nodes := [el] |} in
  let r := loadHandler Sample.lib Sample.opts doc (Sample.on el) Sample.fresh in
  calls r = []
  ∧ completion r = Normal tt
  ∧ collectorOf (after r) "a.com" = collectorOf Sample.fresh "a.com".
Proof.
  intros el doc.
  destruct (success_of_link_without_styleSheets Sample.lib Sample.opts doc
              (Sample.on el) el Sample.xcss Sample.fresh
              ltac:(reflexivity) ltac:(reflexivity) ltac:(reflexivity))
    as (Hcalls & Hdone & _ & Hcol).
  exact (conj Hcalls (conj Hdone (Hcol "a.com"))).
Defined.

Lemma failure_touches_only_its_own_records_witness :
  let el := Sample.script Sample.xjs ∅ in
  let busy :=
    {| collectors := {[ "z.com" := {| retryTimes := 3; failed := ["u"; "v"; "w"];
                                      succeeded := ["x"] |} ]};
       retryCache := ∅ |} in
  let r := errorHandler Sample.lib Sample.opts (Sample.on el) busy in
  collectors (after r) !! "z.com" = collectors busy !! "z.com"
  ∧ succeeded (collectorOf (after r) "a.com") = succeeded (collectorOf busy "a.com").
Proof.
  intros el busy.
  destruct (failure_touches_only_its_own_records Sample.lib Sample.opts
              (Sample.on el) el Sample.xjs "a.com" busy
              ltac:(vm_compute; reflexivity))
    as (Hother & Hsucc & _).
  exact (conj (Hother "z.com" ltac:(discriminate)) Hsucc).
Defined.


Lemma hooked_element_witness :
  let el := Sample.script Sample.xjs {[ "data-assets-retry-hooked" := "true" ]} in
  let r := errorHandler Sample.lib Sample.opts (Sample.on el) Sample.fresh in
  calls r
  = [OnRetry "http://b.com/x.js" Sample.xjs
       {| retryTimes := 1; failed := [Sample.xjs]; succeeded := [] |}]
  ∧ completion r = Normal tt
  ∧ retryCache (after r) = <[hashTarget Sample.lib el := true]> ∅.
Proof.
  intros el.
  apply (hooked_element_is_ledgered_not_replaced Sample.lib Sample.opts
           (Sample.on el) el Sample.xjs "a.com" "b.com" "http://b.com/x.js"
           Sample.fresh).
  - vm_compute. reflexivity.
  - reflexivity.
  - vm_compute. reflexivity.
  - reflexivity.
  - reflexivity.
  - reflexivity.
  - reflexivity.
  - reflexivity.
Defined.
